(** * Event sourcing core: event store, account aggregate, account projection

    A shallow embedding of the TypeScript sources

      - domain/events.ts, domain/commands.ts   (fact and intent shapes)
      - infrastructure/eventStore.ts           (InMemoryEventStore)
      - domain/aggregate.ts                    (AccountAggregate)
      - projections/accountView.ts             (AccountProjection)
      - the command handler of the server file (handleCommand)

    Modelling conventions.

      - An amount or a balance is a JavaScript [number] as it is: an
        IEEE 754 double, the primitive [float], with its rounding, its
        infinities and its NaN; [+], [-], [<=] and [<] are the
        operations on doubles.
      - A version is an integer [Z]: the store admits a version only as
        the current one plus one, counting from 0.  A [Date] is its
        [getTime()] value, a [Z].
      - A method of a class is a computation [Exec S A] over the
        object's private field [S]: it either returns a value or throws,
        and in both cases hands back the field as the method left it.
      - [uuidv4()] and [new Date()] are inputs: a handler receives the
        identifier and the instant it would have drawn.
      - The [async] methods of the store are run to completion one after
        the other, as the single-threaded callers [await] them. *)

From Stdlib Require Import ZArith String List.
From Stdlib Require Import Floats.
From stdpp Require Import base option list sorting gmap strings.

Local Open Scope Z_scope.

(** ** Exceptions and stateful methods *)

(** One constructor per [throw new Error(...)] site; the comment gives
    the message of the site. *)
Inductive Error : Type :=
  (* eventStore.ts *)
  | ConcurrencyError (expectedVersion currentVersion : Z)
      (* `Concurrency error: expected version ${expectedVersion}, but
         current version is ${currentVersion}` *)
  | AggregateIdMismatch   (* "Event aggregateId does not match" *)
  | VersionNotSequential  (* "Event version is not sequential" *)
  (* aggregate.ts *)
  | UserAlreadyExists     (* "User already exists" *)
  | DepositToClosed       (* "Cannot deposit to closed account" *)
  | DepositNotPositive    (* "Deposit amount must be positive" *)
  | WithdrawFromClosed    (* "Cannot withdraw from closed account" *)
  | WithdrawNotPositive   (* "Withdrawal amount must be positive" *)
  | InsufficientFunds     (* "Insufficient funds" *)
  | AlreadyClosed.        (* "Account already closed" *)

(** The three kinds of failure the specification names. *)
Definition isConcurrencyError (e : Error) : bool :=
  match e with ConcurrencyError _ _ => true | _ => false end.

Definition isValidationError (e : Error) : bool :=
  match e with AggregateIdMismatch | VersionNotSequential => true | _ => false end.

Definition isDomainError (e : Error) : bool :=
  match e with
  | UserAlreadyExists | DepositToClosed | DepositNotPositive
  | WithdrawFromClosed | WithdrawNotPositive | InsufficientFunds
  | AlreadyClosed => true
  | _ => false
  end.

Inductive Outcome (A : Type) : Type :=
  | Returned (a : A)
  | Thrown (e : Error).
Arguments Returned {A} a.
Arguments Thrown {A} e.

Definition Exec (S A : Type) : Type := S → Outcome A * S.

Section exec.
Context {S : Type}.

Definition throw {A} (e : Error) : Exec S A := λ s, (Thrown e, s).
Definition get : Exec S S := λ s, (Returned s, s).
Definition modify (f : S → S) : Exec S unit := λ s, (Returned tt, f s).

Global Instance exec_ret : MRet (Exec S) := λ A a s, (Returned a, s).
Global Instance exec_bind : MBind (Exec S) := λ A B k m s,
  match m s with
  | (Returned a, s') => k a s'
  | (Thrown e, s') => (Thrown e, s')
  end.

(** [for (const x of xs) body(x)] *)
Fixpoint for_of {A} (xs : list A) (body : A → Exec S unit) : Exec S unit :=
  match xs with
  | [] => mret tt
  | x :: xs' => body x ;; for_of xs' body
  end.
End exec.

(** ** domain/events.ts *)

Module Events.
(** The union [Event]: the tag [eventType] and the shape of [data] go
    together. *)
Inductive EventData : Type :=
  | USER_CREATED (userId name email : string)
  | FUNDS_DEPOSITED (amount : float) (currency : string)
  | FUNDS_WITHDRAWN (amount : float) (currency : string)
  | ACCOUNT_CLOSED (reason : string).

Record Event : Type := {
  eventId : string;
  aggregateId : string;
  timestamp : Z;
  version : Z;
  data : EventData;
}.
End Events.

(** ** domain/commands.ts *)

Module Commands.
Inductive CommandData : Type :=
  | CREATE_USER (name email : string)
  | DEPOSIT_FUNDS (amount : float) (currency : string)
  | WITHDRAW_FUNDS (amount : float) (currency : string)
  | CLOSE_ACCOUNT (reason : string).

Record Command : Type := {
  commandId : string;
  aggregateId : string;
  timestamp : Z;
  data : CommandData;
}.
End Commands.

Abbreviation Event := Events.Event.
Abbreviation Command := Commands.Command.

(** ** infrastructure/eventStore.ts *)

Module InMemoryEventStore.
(** The private field [events]. *)
Abbreviation t := (list Event).

Definition init : t := [].

(** [Math.max(...vs)] for a non-empty [vs]; the source calls it only
    under [existingEvents.length > 0]. *)
Definition Math_max (vs : list Z) : Z :=
  match vs with
  | [] => 0
  | v :: vs' => foldl Z.max v vs'
  end.

Definition existingEvents (aggregateId : string) (events : t) : list Event :=
  filter (λ e, Events.aggregateId e = aggregateId) events.

Definition currentVersion (aggregateId : string) (events : t) : Z :=
  let existing := existingEvents aggregateId events in
  if bool_decide (0 < length existing)%nat
  then Math_max (Events.version <$> existing)
  else 0.

(** The validation loop of [saveEvents]. *)
Definition validate (aggregateId : string) (currentVersion : Z)
    (events : list Event) : Exec t unit :=
  for_of events (λ event,
    if bool_decide (Events.aggregateId event ≠ aggregateId)
    then throw AggregateIdMismatch
    else if bool_decide (Events.version event ≠ currentVersion + 1)
    then throw VersionNotSequential
    else mret tt).

Definition saveEvents (aggregateId : string) (events : list Event)
    (expectedVersion : Z) : Exec t unit :=
  this ← get;
  let currentVersion := currentVersion aggregateId this in
  if bool_decide (currentVersion ≠ expectedVersion)
  then throw (ConcurrencyError expectedVersion currentVersion)
  else
    validate aggregateId currentVersion events ;;
    modify (λ stored, stored ++ events).

(** [Array.prototype.sort] is stable: an element stays in front of the
    later elements that the comparator does not order before it. *)
Fixpoint insert_sorted {A} (cmp : A → A → Z) (x : A) (l : list A) : list A :=
  match l with
  | [] => [x]
  | y :: l' => if bool_decide (cmp x y ≤ 0) then x :: y :: l'
               else y :: insert_sorted cmp x l'
  end.

Definition sort {A} (cmp : A → A → Z) (l : list A) : list A :=
  foldr (insert_sorted cmp) [] l.

Definition getEventsForAggregate (aggregateId : string) : Exec t (list Event) :=
  this ← get;
  mret (sort (λ a b, Events.version a - Events.version b)
             (filter (λ event, Events.aggregateId event = aggregateId) this)).

Definition getAllEvents : Exec t (list Event) :=
  this ← get;
  mret (sort (λ a b, Events.timestamp a - Events.timestamp b) this).
End InMemoryEventStore.

(** ** domain/aggregate.ts *)

(** What a handler draws from its surroundings: the result of
    [uuidv4()] and of [new Date()]. *)
Record Ambient : Type := {
  uuidv4 : string;
  now : Z;
}.

(** Truthiness of an optional string field: [undefined] and the empty
    string are falsy. *)
Definition truthy (o : option string) : bool :=
  match o with
  | Some s => bool_decide (s ≠ EmptyString)
  | None => false
  end.

Module AccountAggregate.
Record AccountState : Type := {
  aggregateId : string;
  version : Z;
  userId : option string;
  name : option string;
  email : option string;
  balance : float;
  currency : string;
  isClosed : bool;
}.

(** Assignments to one field of [this.state]. *)
Definition set_version (v : Z) (st : AccountState) : AccountState :=
  {| aggregateId := aggregateId st; version := v; userId := userId st;
     name := name st; email := email st; balance := balance st;
     currency := currency st; isClosed := isClosed st |}.

Definition set_user (u n e : string) (st : AccountState) : AccountState :=
  {| aggregateId := aggregateId st; version := version st; userId := Some u;
     name := Some n; email := Some e; balance := balance st;
     currency := currency st; isClosed := isClosed st |}.

Definition set_balance (b : float) (st : AccountState) : AccountState :=
  {| aggregateId := aggregateId st; version := version st; userId := userId st;
     name := name st; email := email st; balance := b;
     currency := currency st; isClosed := isClosed st |}.

Definition set_isClosed (c : bool) (st : AccountState) : AccountState :=
  {| aggregateId := aggregateId st; version := version st; userId := userId st;
     name := name st; email := email st; balance := balance st;
     currency := currency st; isClosed := c |}.

(** The constructor. *)
Definition new (aggregateId : string) : AccountState :=
  {| aggregateId := aggregateId; version := 0; userId := None; name := None;
     email := None; balance := 0%float; currency := "USD"; isClosed := false |}.

Definition handleCreateUser (amb : Ambient) (command : Command)
    (name email : string) : Exec AccountState (list Event) :=
  this ← get;
  if truthy (userId this) then throw UserAlreadyExists
  else
    let event : Event :=
      {| Events.eventId := uuidv4 amb;
         Events.aggregateId := Commands.aggregateId command;
         Events.timestamp := now amb;
         Events.version := version this + 1;
         Events.data :=
           Events.USER_CREATED (Commands.aggregateId command) name email |} in
    mret [event].

Definition handleDepositFunds (amb : Ambient) (command : Command)
    (amount : float) (currency : string) : Exec AccountState (list Event) :=
  this ← get;
  if isClosed this then throw DepositToClosed
  else if (amount <=? 0)%float then throw DepositNotPositive
  else
    let event : Event :=
      {| Events.eventId := uuidv4 amb;
         Events.aggregateId := Commands.aggregateId command;
         Events.timestamp := now amb;
         Events.version := version this + 1;
         Events.data := Events.FUNDS_DEPOSITED amount currency |} in
    mret [event].

Definition handleWithdrawFunds (amb : Ambient) (command : Command)
    (amount : float) (currency : string) : Exec AccountState (list Event) :=
  this ← get;
  if isClosed this then throw WithdrawFromClosed
  else if (amount <=? 0)%float then throw WithdrawNotPositive
  else if (balance this <? amount)%float then throw InsufficientFunds
  else
    let event : Event :=
      {| Events.eventId := uuidv4 amb;
         Events.aggregateId := Commands.aggregateId command;
         Events.timestamp := now amb;
         Events.version := version this + 1;
         Events.data := Events.FUNDS_WITHDRAWN amount currency |} in
    mret [event].

Definition handleCloseAccount (amb : Ambient) (command : Command)
    (reason : string) : Exec AccountState (list Event) :=
  this ← get;
  if isClosed this then throw AlreadyClosed
  else
    let event : Event :=
      {| Events.eventId := uuidv4 amb;
         Events.aggregateId := Commands.aggregateId command;
         Events.timestamp := now amb;
         Events.version := version this + 1;
         Events.data := Events.ACCOUNT_CLOSED reason |} in
    mret [event].

(** The [switch] on [command.commandType]; its [default] branch is out
    of reach of a value of the union [Command]. *)
Definition handleCommand (amb : Ambient) (command : Command)
    : Exec AccountState (list Event) :=
  match Commands.data command with
  | Commands.CREATE_USER name email => handleCreateUser amb command name email
  | Commands.DEPOSIT_FUNDS amount currency =>
      handleDepositFunds amb command amount currency
  | Commands.WITHDRAW_FUNDS amount currency =>
      handleWithdrawFunds amb command amount currency
  | Commands.CLOSE_ACCOUNT reason => handleCloseAccount amb command reason
  end.

Definition applyEvent (event : Event) : Exec AccountState unit :=
  modify (set_version (Events.version event)) ;;
  match Events.data event with
  | Events.USER_CREATED userId name email => modify (set_user userId name email)
  | Events.FUNDS_DEPOSITED amount _ =>
      modify (λ st, set_balance (balance st + amount)%float st)
  | Events.FUNDS_WITHDRAWN amount _ =>
      modify (λ st, set_balance (balance st - amount)%float st)
  | Events.ACCOUNT_CLOSED _ => modify (set_isClosed true)
  end.

Definition loadFromHistory (events : list Event) : Exec AccountState unit :=
  for_of events applyEvent.

(** [{ ...this.state }]: a copy of the record. *)
Definition getState : Exec AccountState AccountState := get.
End AccountAggregate.

Abbreviation AccountState := AccountAggregate.AccountState.

(** ** projections/accountView.ts *)

Module AccountProjection.
Record AccountView : Type := {
  aggregateId : string;
  userId : option string;
  name : option string;
  email : option string;
  balance : float;
  currency : string;
  isClosed : bool;
  lastActivity : Z;
}.

Definition set_user (u n e : string) (v : AccountView) : AccountView :=
  {| aggregateId := aggregateId v; userId := Some u; name := Some n;
     email := Some e; balance := balance v; currency := currency v;
     isClosed := isClosed v; lastActivity := lastActivity v |}.

Definition set_balance (b : float) (v : AccountView) : AccountView :=
  {| aggregateId := aggregateId v; userId := userId v; name := name v;
     email := email v; balance := b; currency := currency v;
     isClosed := isClosed v; lastActivity := lastActivity v |}.

Definition set_currency (c : string) (v : AccountView) : AccountView :=
  {| aggregateId := aggregateId v; userId := userId v; name := name v;
     email := email v; balance := balance v; currency := c;
     isClosed := isClosed v; lastActivity := lastActivity v |}.

Definition set_isClosed (c : bool) (v : AccountView) : AccountView :=
  {| aggregateId := aggregateId v; userId := userId v; name := name v;
     email := email v; balance := balance v; currency := currency v;
     isClosed := c; lastActivity := lastActivity v |}.

Definition set_lastActivity (t : Z) (v : AccountView) : AccountView :=
  {| aggregateId := aggregateId v; userId := userId v; name := name v;
     email := email v; balance := balance v; currency := currency v;
     isClosed := isClosed v; lastActivity := t |}.

(** The view [processEvent] makes when the map has none for the
    aggregate. *)
Definition fresh (aggregateId : string) (timestamp : Z) : AccountView :=
  {| aggregateId := aggregateId; userId := None; name := None; email := None;
     balance := 0%float; currency := "USD"; isClosed := false;
     lastActivity := timestamp |}.

(** The [switch] of [processEvent] and the assignment after it, on the
    view object. *)
Definition update (event : Event) (view : AccountView) : AccountView :=
  let view :=
    match Events.data event with
    | Events.USER_CREATED userId name email => set_user userId name email view
    | Events.FUNDS_DEPOSITED amount currency =>
        set_currency currency (set_balance (balance view + amount)%float view)
    | Events.FUNDS_WITHDRAWN amount _ =>
        set_balance (balance view - amount)%float view
    | Events.ACCOUNT_CLOSED _ => set_isClosed true view
    end in
  set_lastActivity (Events.timestamp event) view.

(** The private field [views] is a [Map<string, AccountView>].  The map
    holds the view object that [processEvent] mutates, so the mutated
    view is the one stored under the aggregate's key afterwards. *)
Definition processEvent (event : Event) : Exec (gmap string AccountView) unit :=
  modify (λ views,
    let aggregateId := Events.aggregateId event in
    let view :=
      match views !! aggregateId with
      | Some view => view
      | None => fresh aggregateId (Events.timestamp event)
      end in
    <[aggregateId := update event view]> views).

Definition getAccountView (aggregateId : string)
    : Exec (gmap string AccountView) (option AccountView) :=
  views ← get;
  mret (views !! aggregateId).

Definition rebuildFromEvents (events : list Event)
    : Exec (gmap string AccountView) unit :=
  modify (λ _, ∅) ;;
  for_of events processEvent.
End AccountProjection.

Abbreviation AccountView := AccountProjection.AccountView.

(** ** The command handler of the server *)

Module Server.
(** The two module-level objects [eventStore] and [accountProjection]. *)
Record t : Type := {
  eventStore : list Event;
  accountProjection : gmap string AccountView;
}.

Definition init : t := {| eventStore := []; accountProjection := ∅ |}.

(** A method call on the [eventStore] object. *)
Definition on_eventStore {A} (m : Exec (list Event) A) : Exec t A := λ s,
  let '(r, store) := m (eventStore s) in
  (r, {| eventStore := store; accountProjection := accountProjection s |}).

(** A method call on the [accountProjection] object. *)
Definition on_accountProjection {A} (m : Exec (gmap string AccountView) A)
    : Exec t A := λ s,
  let '(r, views) := m (accountProjection s) in
  (r, {| eventStore := eventStore s; accountProjection := views |}).

(** A method call on the local [aggregate] object: the result and the
    object afterwards; a throw leaves the function, and the object with
    it. *)
Definition on_aggregate {A} (aggregate : AccountState)
    (m : Exec AccountState A) : Exec t (A * AccountState) := λ s,
  match m aggregate with
  | (Returned a, aggregate') => (Returned (a, aggregate'), s)
  | (Thrown e, _) => (Thrown e, s)
  end.

(** [handleCommand] of the server.  The events it passes to [io.emit]
    are its result here; it logs to the console besides. *)
Definition handleCommand (amb : Ambient) (command : Command)
    : Exec t (list Event) :=
  let aggregate := AccountAggregate.new (Commands.aggregateId command) in
  events ← on_eventStore
    (InMemoryEventStore.getEventsForAggregate (Commands.aggregateId command));
  '(_, aggregate) ← on_aggregate aggregate
    (AccountAggregate.loadFromHistory events);
  '(newEvents, aggregate) ← on_aggregate aggregate
    (AccountAggregate.handleCommand amb command);
  let currentVersion := Z.of_nat (length events) in
  on_eventStore
    (InMemoryEventStore.saveEvents (Commands.aggregateId command) newEvents
       currentVersion) ;;
  on_accountProjection (for_of newEvents AccountProjection.processEvent) ;;
  mret newEvents.
End Server.

(** ** Sample values *)

Module Sample.
Definition event (aggregateId : string) (version : Z)
    (data : Events.EventData) : Event :=
  {| Events.eventId := "evt"; Events.aggregateId := aggregateId;
     Events.timestamp := 1000 + version; Events.version := version;
     Events.data := data |}.

Definition command (aggregateId : string) (data : Commands.CommandData)
    : Command :=
  {| Commands.commandId := "cmd"; Commands.aggregateId := aggregateId;
     Commands.timestamp := 0; Commands.data := data |}.

Definition ambient (n : Z) : Ambient := {| uuidv4 := "uuid"; now := n |}.

(** An open account holding 100. *)
Definition open_account : AccountState :=
  {| AccountAggregate.aggregateId := "acc-1"; AccountAggregate.version := 2;
     AccountAggregate.userId := Some "acc-1";
     AccountAggregate.name := Some "Ada";
     AccountAggregate.email := Some "ada@example.org";
     AccountAggregate.balance := 100%float;
     AccountAggregate.currency := "USD";
     AccountAggregate.isClosed := false |}.

Definition closed_account : AccountState :=
  AccountAggregate.set_isClosed true open_account.

(** Two histories of "acc-1" that end at the same instant with the same
    balance: three events, and two. *)
Definition history : list Event :=
  [ event "acc-1" 1 (Events.USER_CREATED "acc-1" "Ada" "ada@example.org");
    event "acc-1" 2 (Events.FUNDS_DEPOSITED 100 "USD");
    event "acc-1" 3 (Events.FUNDS_WITHDRAWN 40 "USD") ].

Definition shorter_history : list Event :=
  [ event "acc-1" 1 (Events.USER_CREATED "acc-1" "Ada" "ada@example.org");
    {| Events.eventId := "evt"; Events.aggregateId := "acc-1";
       Events.timestamp := 1003; Events.version := 2;
       Events.data := Events.FUNDS_DEPOSITED 60 "USD" |} ].
End Sample.

(** ** Vocabulary of the statements *)

(** What the validation loop of [saveEvents] asks of an event of the
    batch. *)
Definition passes (aggregateId : string) (currentVersion : Z) (event : Event) : Prop :=
  Events.aggregateId event = aggregateId ∧
  Events.version event = currentVersion + 1.

(** The current version of an aggregate as the specification words it:
    the largest version among the stored events of the aggregate, and 0
    when there is none. *)
Definition is_current_version (aggregateId : string) (events : list Event)
    (v : Z) : Prop :=
  let versions :=
    Events.version <$> InMemoryEventStore.existingEvents aggregateId events in
  (versions = [] ∧ v = 0) ∨ (v ∈ versions ∧ ∀ w, w ∈ versions → w ≤ v).

(** Feeding the events one by one, in order, to [processEvent] on a
    projection whose map is empty. *)
Definition process_each (events : list Event) : gmap string AccountView :=
  foldl (λ views event, (AccountProjection.processEvent event views).2) ∅ events.

(** The fields a state and a view share, compared; [None] is the
    answer of the projection for an aggregate it holds no view of. *)
Definition same_account (st : AccountState) (view : option AccountView) : Prop :=
  match view with
  | Some v =>
      AccountProjection.balance v = AccountAggregate.balance st ∧
      AccountProjection.isClosed v = AccountAggregate.isClosed st ∧
      AccountProjection.userId v = AccountAggregate.userId st ∧
      AccountProjection.name v = AccountAggregate.name st ∧
      AccountProjection.email v = AccountAggregate.email st
  | None =>
      AccountAggregate.balance st = 0%float ∧
      AccountAggregate.isClosed st = false ∧
      AccountAggregate.userId st = None ∧
      AccountAggregate.name st = None ∧
      AccountAggregate.email st = None
  end.

(** The scenario: on a server that has handled nothing yet, a user is
    created for the aggregate [E], 100 is deposited, 40 is withdrawn and
    the account is closed.  [meta] gives the id and the timestamp of
    each command, [amb] what each call draws from its surroundings. *)
Section scenario.
Variables (E name email currency1 currency2 reason : string).
Variables (meta1 meta2 meta3 meta4 : string * Z).
Variables (amb1 amb2 amb3 amb4 : Ambient).

Definition command_for (meta : string * Z) (data : Commands.CommandData)
    : Command :=
  {| Commands.commandId := meta.1; Commands.aggregateId := E;
     Commands.timestamp := meta.2; Commands.data := data |}.

Definition create_user : Command :=
  command_for meta1 (Commands.CREATE_USER name email).
Definition deposit_100 : Command :=
  command_for meta2 (Commands.DEPOSIT_FUNDS 100 currency1).
Definition withdraw_40 : Command :=
  command_for meta3 (Commands.WITHDRAW_FUNDS 40 currency2).
Definition close_account : Command :=
  command_for meta4 (Commands.CLOSE_ACCOUNT reason).

(** The event each step is to emit. *)
Definition emitted (amb : Ambient) (version : Z) (data : Events.EventData)
    : Event :=
  {| Events.eventId := uuidv4 amb; Events.aggregateId := E;
     Events.timestamp := now amb; Events.version := version;
     Events.data := data |}.

Definition user_created : Event :=
  emitted amb1 1 (Events.USER_CREATED E name email).
Definition funds_deposited : Event :=
  emitted amb2 2 (Events.FUNDS_DEPOSITED 100 currency1).
Definition funds_withdrawn : Event :=
  emitted amb3 3 (Events.FUNDS_WITHDRAWN 40 currency2).
Definition account_closed : Event :=
  emitted amb4 4 (Events.ACCOUNT_CLOSED reason).
End scenario.

(** The log of the scenario for the aggregate "acc-1", and a log of
    three events that ends at the same instant with the same balance. *)
Definition scenario_log : list Event :=
  [ user_created "acc-1" "Ada" "ada@example.org" (Sample.ambient 1);
    funds_deposited "acc-1" "USD" (Sample.ambient 2);
    funds_withdrawn "acc-1" "USD" (Sample.ambient 3);
    account_closed "acc-1" "done" (Sample.ambient 4) ].

Definition shorter_log : list Event :=
  [ emitted "acc-1" (Sample.ambient 1) 1
      (Events.USER_CREATED "acc-1" "Ada" "ada@example.org");
    emitted "acc-1" (Sample.ambient 2) 2 (Events.FUNDS_DEPOSITED 60 "USD");
    emitted "acc-1" (Sample.ambient 4) 3 (Events.ACCOUNT_CLOSED "done") ].

(** ** The server at startup and under a sequence of requests *)

(** The block the server runs when it starts: it reads the whole log
    and rebuilds the projection; its [catch] only logs. *)
Definition rebuild_on_startup : Exec Server.t unit := λ s,
  let body : Exec Server.t unit :=
    allEvents ← Server.on_eventStore InMemoryEventStore.getAllEvents;
    Server.on_accountProjection (AccountProjection.rebuildFromEvents allEvents) in
  match body s with
  | (Returned _, s') => (Returned tt, s')
  | (Thrown _, s') => (Returned tt, s')
  end.

(** Commands handled one after the other; a route catches what
    [handleCommand] throws and answers the next request. *)
Definition handle_all (requests : list (Ambient * Command)) (s : Server.t)
    : Server.t :=
  foldl (λ s request, (Server.handleCommand request.1 request.2 s).2) s requests.

(** A log in which the events of every aggregate are numbered 1, 2, 3,
    ... in the order they were stored. *)
Definition well_numbered (events : list Event) : Prop :=
  ∀ aggregateId,
    Events.version <$> InMemoryEventStore.existingEvents aggregateId events =
    Z.of_nat <$> seq 1 (length (InMemoryEventStore.existingEvents aggregateId events)).

(** What one event makes of a balance: the sum or the difference of
    doubles that [applyEvent] and [processEvent] both compute. *)
Definition balance_step (balance : float) (event : Event) : float :=
  match Events.data event with
  | Events.FUNDS_DEPOSITED amount _ => (balance + amount)%float
  | Events.FUNDS_WITHDRAWN amount _ => (balance - amount)%float
  | _ => balance
  end.

(** The state an aggregate loads from the log. *)
Definition state_of (aggregateId : string) (events : list Event) : AccountState :=
  (AccountAggregate.loadFromHistory
     (InMemoryEventStore.existingEvents aggregateId events)
     (AccountAggregate.new aggregateId)).2.

(** One more event on the view an aggregate has, if any: the step of
    [processEvent] seen from one key of the map. *)
Definition view_step (E : string) (view : option AccountView) (event : Event)
    : option AccountView :=
  Some (AccountProjection.update event
          (default (AccountProjection.fresh E (Events.timestamp event)) view)).

(** The projection holds what [processEvent] makes of the log, event by
    event. *)
Definition in_sync (s : Server.t) : Prop :=
  Server.accountProjection s = process_each (Server.eventStore s).

(** The state of the server keeps: a log numbered without gaps and a
    projection in step with the log. *)
Definition server_inv (s : Server.t) : Prop :=
  well_numbered (Server.eventStore s) ∧ in_sync s.

Ltac exec_unfold :=
  unfold mbind, exec_bind, mret, exec_ret, throw, get, modify in *.

(** * Properties *)

(** ** The [Exec] computations *)

Lemma for_of_cons_returned {S A} (x : A) (xs : list A) (body : A → Exec S unit)
    (s s1 : S) :
  body x s = (Returned tt, s1) →
  for_of (x :: xs) body s = for_of xs body s1.
Proof. intros Hrun. simpl. exec_unfold. by rewrite Hrun. Qed.

(** ** Doubles *)

Section doubles.

Lemma Prim2SF_nan (a : float) : Prim2SF a = S754_nan → a = nan.
Proof. intros Ha. by apply Prim2SF_inj. Qed.

(** Nothing is less than NaN. *)
Lemma ltb_nan_r (a : float) : (a <? nan)%float = false.
Proof.
  rewrite FloatAxioms.ltb_spec. unfold SFltb.
  change (Prim2SF nan) with S754_nan. by destruct (Prim2SF a).
Qed.

(** But for NaN, [a <= 0] says that [a] is not greater than 0. *)
Lemma leb_zero_not_nan (a : float) :
  a ≠ nan → (a <=? 0)%float = negb (0 <? a)%float.
Proof.
  intros Hnan. rewrite FloatAxioms.leb_spec, FloatAxioms.ltb_spec.
  unfold SFleb, SFltb. change (Prim2SF 0) with (S754_zero false).
  destruct (Prim2SF a) as [s|s| |s m e] eqn:Ha; simpl; try done.
  - by destruct s.
  - by apply Prim2SF_nan in Ha.
  - by destruct s.
Qed.

(** A double greater than 0 added to 0 is that double. *)
Lemma add_zero_positive (a : float) :
  (0 <? a)%float = true → (0 + a)%float = a.
Proof.
  rewrite FloatAxioms.ltb_spec. unfold SFltb.
  change (Prim2SF 0) with (S754_zero false). intros Hpos.
  apply Prim2SF_inj. rewrite FloatAxioms.add_spec.
  change (Prim2SF 0) with (S754_zero false).
  by destruct (Prim2SF a) as [s|s| |s m e].
Qed.

Lemma leb_zero_positive (a : float) :
  (0 <? a)%float = true → (a <=? 0)%float = false.
Proof.
  intros Hpos. rewrite leb_zero_not_nan; [by rewrite Hpos|].
  intros ->. by rewrite ltb_nan_r in Hpos.
Qed.

(** NaN absorbs sums and differences, and is less than nothing. *)
Lemma add_nan_l (a : float) : (nan + a)%float = nan.
Proof.
  apply Prim2SF_inj. rewrite FloatAxioms.add_spec.
  change (Prim2SF nan) with S754_nan. by destruct (Prim2SF a).
Qed.

Lemma add_nan_r (a : float) : (a + nan)%float = nan.
Proof.
  apply Prim2SF_inj. rewrite FloatAxioms.add_spec.
  change (Prim2SF nan) with S754_nan. by destruct (Prim2SF a).
Qed.

Lemma sub_nan_l (a : float) : (nan - a)%float = nan.
Proof.
  apply Prim2SF_inj. rewrite FloatAxioms.sub_spec.
  change (Prim2SF nan) with S754_nan. by destruct (Prim2SF a).
Qed.

Lemma sub_nan_r (a : float) : (a - nan)%float = nan.
Proof.
  apply Prim2SF_inj. rewrite FloatAxioms.sub_spec.
  change (Prim2SF nan) with S754_nan. by destruct (Prim2SF a).
Qed.

Lemma ltb_nan_l (a : float) : (nan <? a)%float = false.
Proof.
  rewrite FloatAxioms.ltb_spec. unfold SFltb.
  by change (Prim2SF nan) with S754_nan.
Qed.

End doubles.

(** ** The event store *)

Section event_store.
Import InMemoryEventStore.

Lemma validate_frame aggregateId cur events (s : t) :
  (validate aggregateId cur events s).2 = s.
Proof.
  unfold validate. induction events as [|e events IH]; simpl; [done|].
  exec_unfold. repeat case_bool_decide; simpl; auto.
Qed.

Lemma validate_passes aggregateId cur events (s : t) :
  Forall (passes aggregateId cur) events →
  validate aggregateId cur events s = (Returned tt, s).
Proof.
  unfold validate. induction 1 as [|e events [Hid Hv] _ IH]; simpl; [done|].
  exec_unfold. rewrite !bool_decide_eq_false_2 by (intros ?; done). apply IH.
Qed.

Lemma validate_throws aggregateId cur events (s : t) :
  ¬ Forall (passes aggregateId cur) events →
  ∃ err, validate aggregateId cur events s = (Thrown err, s) ∧
         isValidationError err = true.
Proof.
  unfold validate. induction events as [|e events IH]; simpl; intros Hn.
  { destruct Hn. constructor. }
  exec_unfold.
  destruct (bool_decide (Events.aggregateId e ≠ aggregateId)) eqn:Hid;
    [eexists; split; reflexivity|].
  destruct (bool_decide (Events.version e ≠ cur + 1)) eqn:Hv;
    [eexists; split; reflexivity|].
  apply bool_decide_eq_false in Hid, Hv.
  apply IH. intros HF. apply Hn. constructor; [|done].
  split; by apply dec_stable.
Qed.

Lemma foldl_max_spec (vs : list Z) (v : Z) :
  foldl Z.max v vs ∈ v :: vs ∧ ∀ w, w ∈ v :: vs → w ≤ foldl Z.max v vs.
Proof.
  revert v. induction vs as [|u vs IH]; intros v; simpl.
  { split; [apply elem_of_cons; by left|].
    intros w Hw. apply list_elem_of_singleton in Hw. lia. }
  destruct (IH (Z.max v u)) as [Hin Hub]. split.
  - apply elem_of_cons in Hin as [Heq|Hin].
    + rewrite Heq. apply elem_of_cons.
      destruct (Z.max_spec v u) as [[_ ->]|[_ ->]]; [right|by left].
      apply elem_of_cons; by left.
    + apply elem_of_cons; right. apply elem_of_cons; by right.
  - intros w Hw.
    assert (Z.max v u ≤ foldl Z.max (Z.max v u) vs) as Hm
      by (apply Hub, elem_of_cons; by left).
    apply elem_of_cons in Hw as [->|Hw]; [lia|].
    apply elem_of_cons in Hw as [->|Hw]; [lia|].
    apply Hub, elem_of_cons; by right.
Qed.

Lemma currentVersion_spec aggregateId (events : t) :
  is_current_version aggregateId events (currentVersion aggregateId events).
Proof.
  unfold is_current_version, currentVersion.
  destruct (existingEvents aggregateId events) as [|e es]; [by left|right].
  rewrite bool_decide_eq_true_2 by (simpl; lia).
  rewrite fmap_cons. apply foldl_max_spec.
Qed.

Lemma is_current_version_unique aggregateId (events : t) v1 v2 :
  is_current_version aggregateId events v1 →
  is_current_version aggregateId events v2 → v1 = v2.
Proof.
  intros [[H1 ->]|[H1 U1]] [[H2 ->]|[H2 U2]]; try done.
  - rewrite H1 in H2. by apply elem_of_nil in H2.
  - rewrite H2 in H1. by apply elem_of_nil in H1.
  - apply U2 in H1. apply U1 in H2. lia.
Qed.

Lemma saveEvents_stale aggregateId events expectedVersion (s : t) :
  currentVersion aggregateId s ≠ expectedVersion →
  saveEvents aggregateId events expectedVersion s =
  (Thrown (ConcurrencyError expectedVersion (currentVersion aggregateId s)), s).
Proof.
  intros Hne. unfold saveEvents. exec_unfold.
  by rewrite bool_decide_eq_true_2.
Qed.

Lemma saveEvents_accepted aggregateId events (s : t) :
  Forall (passes aggregateId (currentVersion aggregateId s)) events →
  saveEvents aggregateId events (currentVersion aggregateId s) s =
  (Returned tt, s ++ events).
Proof.
  intros HF. unfold saveEvents. exec_unfold.
  rewrite bool_decide_eq_false_2 by (intros ?; done).
  by rewrite validate_passes.
Qed.

Lemma saveEvents_rejected aggregateId events (s : t) :
  ¬ Forall (passes aggregateId (currentVersion aggregateId s)) events →
  ∃ err, saveEvents aggregateId events (currentVersion aggregateId s) s =
           (Thrown err, s) ∧ isValidationError err = true.
Proof.
  intros HF. unfold saveEvents. exec_unfold.
  rewrite bool_decide_eq_false_2 by (intros ?; done).
  destruct (validate_throws _ _ _ s HF) as (err & -> & Herr). eauto.
Qed.

(** A throw of [saveEvents] hands the log back as it found it. *)
Lemma saveEvents_thrown_frame aggregateId events expectedVersion (s : t) err :
  (saveEvents aggregateId events expectedVersion s).1 = Thrown err →
  (saveEvents aggregateId events expectedVersion s).2 = s.
Proof.
  unfold saveEvents. exec_unfold. case_bool_decide; [done|].
  pose proof (validate_frame aggregateId (currentVersion aggregateId s) events s) as Hfr.
  destruct (validate _ _ _ s) as [[[]|e] s']; simpl in *; [done|by subst].
Qed.

(** What [saveEvents] accepts when the expected version is current: the
    batches whose events all carry the aggregate's id and the version
    [currentVersion + 1]. *)
Lemma saveEvents_returns_iff aggregateId events (s : t) :
  (saveEvents aggregateId events (currentVersion aggregateId s) s).1 = Returned tt
  ↔ Forall (passes aggregateId (currentVersion aggregateId s)) events.
Proof.
  split.
  - intros Hret.
    destruct (decide (Forall (passes aggregateId (currentVersion aggregateId s)) events))
      as [|Hn]; [done|].
    destruct (saveEvents_rejected _ _ _ Hn) as (err & Heq & _).
    by rewrite Heq in Hret.
  - intros HF. by rewrite saveEvents_accepted.
Qed.

(** A batch that repeats the version [currentVersion + 1] is stored. *)
Lemma saveEvents_repeated_version aggregateId (e1 e2 : Event) (s : t) :
  passes aggregateId (currentVersion aggregateId s) e1 →
  passes aggregateId (currentVersion aggregateId s) e2 →
  saveEvents aggregateId [e1; e2] (currentVersion aggregateId s) s =
  (Returned tt, s ++ [e1; e2]).
Proof. intros H1 H2. apply saveEvents_accepted. auto using Forall_cons, Forall_nil_2. Qed.

(** C1 (the code departs from the claim).  With the expected version
    current, a batch of two events of the target aggregate whose
    versions are [expectedVersion + 1] and [expectedVersion + 2], an
    unbroken ascending run, is not stored: the validation loop compares
    every event with [currentVersion + 1] and throws "Event version is
    not sequential" at the second one.  The log is left as it was. *)
Theorem C1_ascending_pair_rejected aggregateId (e1 e2 : Event) (s : t) :
  Events.aggregateId e1 = aggregateId →
  Events.aggregateId e2 = aggregateId →
  Events.version e1 = currentVersion aggregateId s + 1 →
  Events.version e2 = currentVersion aggregateId s + 2 →
  saveEvents aggregateId [e1; e2] (currentVersion aggregateId s) s =
  (Thrown VersionNotSequential, s).
Proof.
  intros Hid1 Hid2 Hv1 Hv2. unfold saveEvents, validate. simpl. exec_unfold.
  rewrite bool_decide_eq_false_2 by (intros ?; done).
  rewrite (bool_decide_eq_false_2 (Events.aggregateId e1 ≠ _)) by (intros ?; done).
  rewrite (bool_decide_eq_false_2 (Events.version e1 ≠ _)) by (intros ?; done).
  rewrite (bool_decide_eq_false_2 (Events.aggregateId e2 ≠ _)) by (intros ?; done).
  rewrite (bool_decide_eq_true_2 (Events.version e2 ≠ _)) by lia.
  done.
Qed.

Lemma C1_ascending_pair_rejected_witness :
  saveEvents "acc-1"
    [Sample.event "acc-1" 1 (Events.USER_CREATED "acc-1" "Ada" "ada@example.org");
     Sample.event "acc-1" 2 (Events.FUNDS_DEPOSITED 100 "USD")] 0 [] =
  (Thrown VersionNotSequential, []).
Proof.
  apply (C1_ascending_pair_rejected "acc-1"
           (Sample.event "acc-1" 1 (Events.USER_CREATED "acc-1" "Ada" "ada@example.org"))
           (Sample.event "acc-1" 2 (Events.FUNDS_DEPOSITED 100 "USD")) []);
    reflexivity.
Defined.

(** C2.  When the expected version differs from the current version of
    the aggregate (the largest version among its stored events, 0 if it
    has none), [saveEvents] throws the concurrency error; and whenever
    [saveEvents] throws, for whatever reason, the stored log is the one
    it started from. *)
Theorem C2_stale_version_rejected_log_kept aggregateId events
    expectedVersion v (s : t) :
  is_current_version aggregateId s v →
  (v ≠ expectedVersion →
     saveEvents aggregateId events expectedVersion s =
       (Thrown (ConcurrencyError expectedVersion v), s) ∧
     isConcurrencyError (ConcurrencyError expectedVersion v) = true) ∧
  (∀ err, (saveEvents aggregateId events expectedVersion s).1 = Thrown err →
          (saveEvents aggregateId events expectedVersion s).2 = s ∧
          (isConcurrencyError err = true ∨ isValidationError err = true)).
Proof.
  intros Hv.
  rewrite (is_current_version_unique _ _ _ _ Hv (currentVersion_spec aggregateId s)).
  split.
  - intros Hne. by rewrite saveEvents_stale.
  - intros err Herr. split; [by eapply saveEvents_thrown_frame|].
    destruct (decide (currentVersion aggregateId s = expectedVersion)) as [<-|Hne].
    + destruct (decide (Forall (passes aggregateId (currentVersion aggregateId s)) events))
        as [HF|HF].
      * by rewrite saveEvents_accepted in Herr.
      * destruct (saveEvents_rejected _ _ _ HF) as (err' & Heq & Hval).
        rewrite Heq in Herr. simpl in Herr. right. congruence.
    + rewrite saveEvents_stale in Herr by done. simpl in Herr. left.
      by inversion Herr.
Qed.

Lemma C2_stale_version_rejected_log_kept_witness :
  let s := [Sample.event "acc-1" 1 (Events.ACCOUNT_CLOSED "done")] in
  is_current_version "acc-1" s 1 ∧
  saveEvents "acc-1" [Sample.event "acc-1" 1 (Events.ACCOUNT_CLOSED "again")] 0 s =
    (Thrown (ConcurrencyError 0 1), s).
Proof.
  intros s.
  assert (is_current_version "acc-1" s 1) as Hcur.
  { right. split; [vm_compute; constructor|].
    intros w Hw. vm_compute in Hw. apply list_elem_of_singleton in Hw. lia. }
  split; [exact Hcur|].
  apply (C2_stale_version_rejected_log_kept "acc-1"
           [Sample.event "acc-1" 1 (Events.ACCOUNT_CLOSED "again")] 0 1 s Hcur).
  lia.
Defined.

(** C10.  An empty batch presented with the current version of the
    aggregate is accepted, and the stored log stays as it was. *)
Theorem C10_empty_batch_accepted aggregateId (s : t) :
  saveEvents aggregateId [] (currentVersion aggregateId s) s = (Returned tt, s).
Proof.
  rewrite saveEvents_accepted by constructor. by rewrite app_nil_r.
Qed.

End event_store.

(** ** The aggregate *)

Section aggregate.
Import AccountAggregate.

(** No handler assigns to [this.state]. *)
Lemma handleCommand_frame amb command (st : AccountState) :
  (handleCommand amb command st).2 = st.
Proof.
  unfold handleCommand, handleCreateUser, handleDepositFunds,
    handleWithdrawFunds, handleCloseAccount.
  destruct (Commands.data command); exec_unfold;
    repeat match goal with |- context [if ?b then _ else _] => destruct b end;
    done.
Qed.

(** Every error a handler throws is a domain error. *)
Lemma handleCommand_thrown amb command (st : AccountState) err :
  (handleCommand amb command st).1 = Thrown err → isDomainError err = true.
Proof.
  unfold handleCommand, handleCreateUser, handleDepositFunds,
    handleWithdrawFunds, handleCloseAccount.
  destruct (Commands.data command); exec_unfold;
    repeat match goal with |- context [if ?b then _ else _] => destruct b end;
    simpl; intros [= <-]; done.
Qed.

(** A handler that returns, returns one event, numbered one past the
    version of the state. *)
Lemma handleCommand_returned amb command (st : AccountState) events :
  (handleCommand amb command st).1 = Returned events →
  ∃ event, events = [event] ∧
    Events.version event = version st + 1 ∧
    Events.aggregateId event = Commands.aggregateId command ∧
    Events.eventId event = uuidv4 amb ∧ Events.timestamp event = now amb.
Proof.
  unfold handleCommand, handleCreateUser, handleDepositFunds,
    handleWithdrawFunds, handleCloseAccount.
  destruct (Commands.data command); exec_unfold;
    repeat match goal with |- context [if ?b then _ else _] => destruct b end;
    simpl; intros [= <-]; eauto 10.
Qed.

(** What [handleWithdrawFunds] does, guard by guard, on doubles. *)
Lemma handleWithdrawFunds_refused_iff amb (command : Command) amount currency
    (st : AccountState) :
  Commands.data command = Commands.WITHDRAW_FUNDS amount currency →
  let refused :=
    isClosed st = true ∨ (amount <=? 0)%float = true ∨
    (balance st <? amount)%float = true in
  ((∃ err, (handleCommand amb command st).1 = Thrown err ∧
           isDomainError err = true) ↔ refused) ∧
  (¬ refused →
     (handleCommand amb command st).1 =
     Returned [ {| Events.eventId := uuidv4 amb;
                   Events.aggregateId := Commands.aggregateId command;
                   Events.timestamp := now amb;
                   Events.version := version st + 1;
                   Events.data := Events.FUNDS_WITHDRAWN amount currency |} ]).
Proof.
  intros Hdata refused. subst refused.
  unfold handleCommand, handleWithdrawFunds. rewrite Hdata. exec_unfold.
  destruct (isClosed st); simpl.
  { split; [|intros Hn; destruct Hn; by left].
    split; [by left|]. intros _. by eexists. }
  destruct (amount <=? 0)%float; simpl.
  { split; [|intros Hn; destruct Hn; right; by left].
    split; [intros _; right; by left|]. intros _. by eexists. }
  destruct (balance st <? amount)%float; simpl.
  { split; [|intros Hn; destruct Hn; right; by right].
    split; [intros _; right; by right|]. intros _. by eexists. }
  split; [|done].
  split; [intros (err & Herr & _); done|].
  intros [?|[?|?]]; done.
Qed.

(** For every amount but NaN the refusals are those of the
    specification: closed, or amount not greater than 0, or balance less
    than the amount. *)
Lemma handleWithdrawFunds_refused_unless_nan amb (command : Command) amount
    currency (st : AccountState) :
  Commands.data command = Commands.WITHDRAW_FUNDS amount currency →
  amount ≠ nan →
  (∃ err, (handleCommand amb command st).1 = Thrown err ∧
          isDomainError err = true)
  ↔ isClosed st = true ∨ (0 <? amount)%float = false ∨
    (balance st <? amount)%float = true.
Proof.
  intros Hdata Hnan.
  destruct (handleWithdrawFunds_refused_iff amb command amount currency st Hdata)
    as [-> _].
  rewrite (leb_zero_not_nan amount Hnan).
  destruct (0 <? amount)%float; simpl; intuition congruence.
Qed.

(** C5 (the code departs from the claim).  On an account that is not
    closed, a withdrawal whose amount is NaN is not refused, although
    NaN is not greater than 0: both guards, [amount <= 0] and
    [balance < amount], are false on NaN, and the handler returns a
    FUNDS_WITHDRAWN event that carries NaN. *)
Theorem C5_nan_withdrawal_accepted amb (command : Command) currency
    (st : AccountState) :
  Commands.data command = Commands.WITHDRAW_FUNDS nan currency →
  isClosed st = false →
  (0 <? nan)%float = false ∧
  handleCommand amb command st =
  (Returned [ {| Events.eventId := uuidv4 amb;
                 Events.aggregateId := Commands.aggregateId command;
                 Events.timestamp := now amb;
                 Events.version := version st + 1;
                 Events.data := Events.FUNDS_WITHDRAWN nan currency |} ], st).
Proof.
  intros Hdata Hopen. split; [reflexivity|].
  unfold handleCommand, handleWithdrawFunds. rewrite Hdata. exec_unfold.
  rewrite Hopen. change (nan <=? 0)%float with false. cbn iota.
  by rewrite ltb_nan_r.
Qed.

Lemma C5_nan_withdrawal_accepted_witness :
  handleCommand (Sample.ambient 7)
    (Sample.command "acc-1" (Commands.WITHDRAW_FUNDS nan "USD"))
    Sample.open_account =
  (Returned [ {| Events.eventId := "uuid"; Events.aggregateId := "acc-1";
                 Events.timestamp := 7; Events.version := 3;
                 Events.data := Events.FUNDS_WITHDRAWN nan "USD" |} ],
   Sample.open_account).
Proof.
  apply (C5_nan_withdrawal_accepted (Sample.ambient 7)
           (Sample.command "acc-1" (Commands.WITHDRAW_FUNDS nan "USD"))
           "USD" Sample.open_account); reflexivity.
Defined.

(** C7.  On a closed account a deposit is refused with a domain error,
    and [getState] gives the same state after the refused call as
    before it. *)
Theorem C7_deposit_on_closed_refused amb (command : Command) amount currency
    (st : AccountState) :
  Commands.data command = Commands.DEPOSIT_FUNDS amount currency →
  isClosed st = true →
  (handleCommand amb command st).1 = Thrown DepositToClosed ∧
  isDomainError DepositToClosed = true ∧
  (getState (handleCommand amb command st).2).1 = (getState st).1.
Proof.
  intros Hdata Hclosed. rewrite handleCommand_frame.
  unfold handleCommand, handleDepositFunds. rewrite Hdata. exec_unfold.
  by rewrite Hclosed.
Qed.

Lemma C7_deposit_on_closed_refused_witness :
  (handleCommand (Sample.ambient 7)
     (Sample.command "acc-1" (Commands.DEPOSIT_FUNDS 25 "USD"))
     Sample.closed_account).1 = Thrown DepositToClosed ∧
  (getState (handleCommand (Sample.ambient 7)
     (Sample.command "acc-1" (Commands.DEPOSIT_FUNDS 25 "USD"))
     Sample.closed_account).2).1 = Returned Sample.closed_account.
Proof.
  destruct (C7_deposit_on_closed_refused (Sample.ambient 7)
              (Sample.command "acc-1" (Commands.DEPOSIT_FUNDS 25 "USD"))
              25 "USD" Sample.closed_account eq_refl eq_refl) as (H1 & _ & H2).
  split; [exact H1|exact H2].
Defined.

(** C8.  A call of [handleCommand] that returns events leaves the state
    of the aggregate as it was: [getState] gives the same value before
    and after, and the version in particular stays, while the returned
    event is numbered one past it. *)
Theorem C8_handleCommand_keeps_state amb (command : Command)
    (st st' : AccountState) events :
  handleCommand amb command st = (Returned events, st') →
  (getState st').1 = (getState st).1 ∧
  version st' = version st ∧
  ∃ event, events = [event] ∧ Events.version event = version st + 1.
Proof.
  intros Hrun.
  pose proof (handleCommand_frame amb command st) as Hfr.
  pose proof (handleCommand_returned amb command st events) as Hret.
  rewrite Hrun in Hfr, Hret. simpl in Hfr. subst st'.
  destruct (Hret eq_refl) as (event & -> & Hv & _). eauto.
Qed.

Lemma C8_handleCommand_keeps_state_witness :
  (getState Sample.open_account).1 = Returned Sample.open_account ∧
  AccountAggregate.version Sample.open_account = 2 ∧
  ∃ event,
    [ {| Events.eventId := "uuid"; Events.aggregateId := "acc-1";
         Events.timestamp := 7; Events.version := 3;
         Events.data := Events.FUNDS_DEPOSITED 25 "EUR" |} ] = [event] ∧
    Events.version event = 2 + 1.
Proof.
  apply (C8_handleCommand_keeps_state (Sample.ambient 7)
           (Sample.command "acc-1" (Commands.DEPOSIT_FUNDS 25 "EUR"))
           Sample.open_account Sample.open_account).
  reflexivity.
Defined.

End aggregate.

(** ** The projection *)

Section projection.
Import AccountProjection.

Lemma for_of_processEvent (events : list Event) (views : gmap string AccountView) :
  for_of events processEvent views =
  (Returned tt, foldl (λ views event, (processEvent event views).2) views events).
Proof.
  revert views. induction events as [|event events IH]; intros views; [done|].
  simpl. rewrite <- IH. reflexivity.
Qed.

(** C4.  Whatever views the projection holds, [rebuildFromEvents]
    leaves it with the views that a projection starting from an empty
    map has after [processEvent] was called once per event, in order. *)
Theorem C4_rebuild_is_incremental (events : list Event)
    (views : gmap string AccountView) :
  rebuildFromEvents events views = (Returned tt, process_each events).
Proof.
  unfold rebuildFromEvents, process_each. exec_unfold.
  apply for_of_processEvent.
Qed.

Lemma processEvent_lookup (event : Event) (views : gmap string AccountView) :
  (processEvent event views).2 !! Events.aggregateId event =
  Some (update event
          (default (fresh (Events.aggregateId event) (Events.timestamp event))
                   (views !! Events.aggregateId event))).
Proof.
  unfold processEvent. exec_unfold. simpl. rewrite lookup_insert_eq.
  by destruct (views !! Events.aggregateId event).
Qed.

Lemma processEvent_lookup_ne (event : Event) (views : gmap string AccountView) E :
  Events.aggregateId event ≠ E →
  (processEvent event views).2 !! E = views !! E.
Proof.
  intros Hne. unfold processEvent. exec_unfold. simpl.
  by rewrite lookup_insert_ne.
Qed.

End projection.

(** ** The two folds compared *)

Section folds.

Lemma applyEvent_run (event : Event) (st : AccountState) :
  ∃ st', AccountAggregate.applyEvent event st = (Returned tt, st') ∧
    AccountAggregate.version st' = Events.version event ∧
    AccountAggregate.currency st' = AccountAggregate.currency st ∧
    AccountAggregate.aggregateId st' = AccountAggregate.aggregateId st.
Proof.
  unfold AccountAggregate.applyEvent. exec_unfold.
  destruct (Events.data event); simpl; eauto.
Qed.

Lemma loadFromHistory_run (events : list Event) (st : AccountState) :
  ∃ st', AccountAggregate.loadFromHistory events st = (Returned tt, st') ∧
    AccountAggregate.version st' =
      default (AccountAggregate.version st) (last (Events.version <$> events)) ∧
    AccountAggregate.currency st' = AccountAggregate.currency st.
Proof.
  unfold AccountAggregate.loadFromHistory.
  revert st. induction events as [|event events IH]; intros st; simpl.
  { eauto. }
  destruct (applyEvent_run event st) as (st1 & Hrun & Hv & Hc & _).
  destruct (IH st1) as (st' & Hrun' & Hv' & Hc').
  exists st'. exec_unfold. rewrite Hrun, Hrun'. split; [done|].
  split; [|congruence].
  rewrite Hv', Hv.
  change (list_fmap Event Z Events.version events) with (Events.version <$> events).
  rewrite last_cons. by destruct (last (Events.version <$> events)).
Qed.

(** One event of aggregate [E] keeps state and view of [E] in step. *)
Lemma same_account_step (event : Event) (st : AccountState)
    (views : gmap string AccountView) :
  same_account st (views !! Events.aggregateId event) →
  same_account (AccountAggregate.applyEvent event st).2
    ((AccountProjection.processEvent event views).2 !! Events.aggregateId event).
Proof.
  rewrite processEvent_lookup.
  unfold AccountAggregate.applyEvent, AccountProjection.update. exec_unfold.
  destruct (views !! Events.aggregateId event) as [v|]; simpl;
    intros (Hb & Hc & Hu & Hn & He);
    destruct (Events.data event); simpl; rewrite ?Hb; done.
Qed.

(** The state folded from the events of [E] among [events], and the
    view of [E] folded from all of [events], stay in step. *)
Lemma same_account_fold E (events : list Event) (st : AccountState)
    (views : gmap string AccountView) :
  same_account st (views !! E) →
  same_account
    (AccountAggregate.loadFromHistory
       (InMemoryEventStore.existingEvents E events) st).2
    ((for_of events AccountProjection.processEvent views).2 !! E).
Proof.
  unfold AccountAggregate.loadFromHistory, InMemoryEventStore.existingEvents.
  rewrite for_of_processEvent. cbn [snd].
  revert st views. induction events as [|event events IH]; intros st views Hsame.
  { done. }
  cbn [foldl].
  destruct (decide (Events.aggregateId event = E)) as [<-|Hne].
  - rewrite filter_cons_True by done.
    destruct (applyEvent_run event st) as (st1 & Hrun & _).
    rewrite (for_of_cons_returned _ _ _ _ _ Hrun).
    apply IH. pose proof (same_account_step event st views Hsame) as Hstep.
    by rewrite Hrun in Hstep.
  - rewrite filter_cons_False by done. apply IH.
    by rewrite processEvent_lookup_ne.
Qed.

Lemma existingEvents_all E (events : list Event) :
  Forall (λ e, Events.aggregateId e = E) events →
  InMemoryEventStore.existingEvents E events = events.
Proof.
  unfold InMemoryEventStore.existingEvents.
  induction 1 as [|e events He _ IH]; [done|].
  by rewrite filter_cons_True, IH.
Qed.

Lemma process_each_lookup_None E (events : list Event)
    (views : gmap string AccountView) :
  (for_of events AccountProjection.processEvent views).2 !! E = None →
  Forall (λ e, Events.aggregateId e ≠ E) events.
Proof.
  rewrite for_of_processEvent. cbn [snd].
  revert views. induction events as [|event events IH] using rev_ind;
    intros views Hnone; [constructor|].
  rewrite foldl_snoc in Hnone. cbn beta in Hnone.
  destruct (decide (Events.aggregateId event = E)) as [<-|Hne].
  { by rewrite processEvent_lookup in Hnone. }
  rewrite processEvent_lookup_ne in Hnone by done.
  apply Forall_app. split; [by eapply IH|by constructor].
Qed.

(** C3 (the claim as stated fails).  A view has no version field, and
    no reading of a version off the view can follow the version of the
    aggregate's state: the histories [Sample.history] and
    [Sample.shorter_history] leave the same view of "acc-1" and states
    of versions 3 and 2. *)
Lemma C3_view_tells_no_version :
  ¬ ∃ view_version : AccountView → Z,
      ∀ (events : list Event) (view : AccountView),
        (for_of events AccountProjection.processEvent ∅).2 !! "acc-1" = Some view →
        view_version view =
        AccountAggregate.version
          (AccountAggregate.loadFromHistory events (AccountAggregate.new "acc-1")).2.
Proof.
  intros (view_version & Hv).
  pose proof (Hv Sample.history _ eq_refl) as H3.
  pose proof (Hv Sample.shorter_history _ eq_refl) as H2.
  vm_compute in H3, H2. congruence.
Qed.

(** C3 (as amended).  For the events of one aggregate, folded in order
    from the zero state: each fold runs to completion and a replay of
    the same events gives the same state and the same views; when the
    projection holds a view of the aggregate, state and view agree on
    balance and on the closed flag; it holds none only when there was no
    event. *)
Theorem C3_folds_agree_on_balance_and_closed E (events : list Event) :
  Forall (λ e, Events.aggregateId e = E) events →
  ∃ (st : AccountState) (views : gmap string AccountView),
    (∀ replay, replay = events →
       AccountAggregate.loadFromHistory replay (AccountAggregate.new E) =
         (Returned tt, st) ∧
       for_of replay AccountProjection.processEvent ∅ = (Returned tt, views)) ∧
    match views !! E with
    | Some view =>
        AccountProjection.balance view = AccountAggregate.balance st ∧
        AccountProjection.isClosed view = AccountAggregate.isClosed st
    | None => events = []
    end.
Proof.
  intros Hall.
  destruct (loadFromHistory_run events (AccountAggregate.new E))
    as (st & Hrun & _).
  exists st, (for_of events AccountProjection.processEvent ∅).2.
  split.
  { intros replay ->. split; [done|]. by rewrite for_of_processEvent. }
  pose proof (same_account_fold E events (AccountAggregate.new E) ∅) as Hsame.
  rewrite existingEvents_all, Hrun in Hsame by done.
  rewrite lookup_empty in Hsame. specialize (Hsame ltac:(done)).
  destruct ((for_of events AccountProjection.processEvent ∅).2 !! E)
    as [view|] eqn:Hview.
  - destruct Hsame as (Hb & Hc & _). done.
  - apply process_each_lookup_None in Hview.
    destruct Hall as [|e events He _]; [done|].
    by apply Forall_cons in Hview as [Hne _].
Qed.

Lemma C3_folds_agree_on_balance_and_closed_witness :
  ∃ (st : AccountState) (view : AccountView),
    AccountAggregate.loadFromHistory Sample.history (AccountAggregate.new "acc-1") =
      (Returned tt, st) ∧
    (for_of Sample.history AccountProjection.processEvent ∅).2 !! "acc-1" =
      Some view ∧
    AccountProjection.balance view = AccountAggregate.balance st ∧
    AccountProjection.isClosed view = AccountAggregate.isClosed st.
Proof.
  destruct (C3_folds_agree_on_balance_and_closed "acc-1" Sample.history)
    as (st & views & Hrun & Hview).
  { repeat constructor. }
  destruct (Hrun Sample.history eq_refl) as [Hst Hviews].
  rewrite Hviews in *. simpl snd.
  destruct (views !! "acc-1") as [view|] eqn:Hlook; [|discriminate Hview].
  exists st, view. destruct Hview. auto.
Defined.

(** C9.  For a FUNDS_DEPOSITED event with currency [C]: [processEvent]
    leaves the view of the event's aggregate with currency [C];
    [applyEvent] leaves the currency of the state as it was, and the
    state folded from any events from the zero state has currency
    "USD"; so when [C] is not "USD", after folding any history that ends
    with the deposit, the state and the view differ in currency. *)
Theorem C9_deposit_currency_view_only (event : Event) amount C :
  Events.data event = Events.FUNDS_DEPOSITED amount C →
  (∀ views : gmap string AccountView, ∃ view,
      (AccountProjection.processEvent event views).2 !! Events.aggregateId event
        = Some view ∧
      AccountProjection.currency view = C) ∧
  (∀ st : AccountState,
      AccountAggregate.currency (AccountAggregate.applyEvent event st).2 =
      AccountAggregate.currency st) ∧
  (∀ E (events : list Event),
      AccountAggregate.currency
        (AccountAggregate.loadFromHistory events (AccountAggregate.new E)).2 =
      "USD"%string) ∧
  (C ≠ "USD"%string → ∀ earlier : list Event, ∃ view,
      (for_of (earlier ++ [event]) AccountProjection.processEvent ∅).2
        !! Events.aggregateId event = Some view ∧
      AccountProjection.currency view ≠
      AccountAggregate.currency
        (AccountAggregate.loadFromHistory (earlier ++ [event])
           (AccountAggregate.new (Events.aggregateId event))).2).
Proof.
  intros Hdata.
  assert (∀ views : gmap string AccountView, ∃ view,
      (AccountProjection.processEvent event views).2 !! Events.aggregateId event
        = Some view ∧ AccountProjection.currency view = C) as Hview.
  { intros views. eexists. split; [apply processEvent_lookup|].
    unfold AccountProjection.update. by rewrite Hdata. }
  assert (∀ E (events : list Event),
      AccountAggregate.currency
        (AccountAggregate.loadFromHistory events (AccountAggregate.new E)).2 =
      "USD"%string) as Husd.
  { intros E events.
    destruct (loadFromHistory_run events (AccountAggregate.new E))
      as (st & Hrun & _ & Hcur). rewrite Hrun. cbn [snd]. by rewrite Hcur. }
  split; [done|]. split.
  { intros st. destruct (applyEvent_run event st) as (st' & Hrun & _ & Hcur & _).
    rewrite Hrun. cbn [snd]. by rewrite Hcur. }
  split; [done|].
  intros HC earlier. rewrite Husd.
  rewrite for_of_processEvent. cbn [snd]. rewrite foldl_snoc. cbn beta.
  destruct (Hview (foldl (λ views e, (AccountProjection.processEvent e views).2)
                     ∅ earlier)) as (view & Hlook & Hcur).
  exists view. split; [done|]. by rewrite Hcur.
Qed.

Lemma C9_deposit_currency_view_only_witness :
  ∃ view,
    (for_of ([Sample.event "acc-1" 1 (Events.USER_CREATED "acc-1" "Ada" "a@b.c")]
             ++ [Sample.event "acc-1" 2 (Events.FUNDS_DEPOSITED 100 "EUR")])
       AccountProjection.processEvent ∅).2 !! "acc-1" = Some view ∧
    AccountProjection.currency view ≠
    AccountAggregate.currency
      (AccountAggregate.loadFromHistory
         ([Sample.event "acc-1" 1 (Events.USER_CREATED "acc-1" "Ada" "a@b.c")]
          ++ [Sample.event "acc-1" 2 (Events.FUNDS_DEPOSITED 100 "EUR")])
         (AccountAggregate.new "acc-1")).2.
Proof.
  destruct (C9_deposit_currency_view_only
              (Sample.event "acc-1" 2 (Events.FUNDS_DEPOSITED 100 "EUR"))
              100 "EUR" eq_refl) as (_ & _ & _ & Hdiff).
  apply Hdiff. discriminate.
Defined.

End folds.

(** ** The command handler of the server *)

Section server.

(** On a sorted list [sort] changes nothing. *)
Lemma sort_sorted {A} (cmp : A → A → Z) (l : list A) :
  (∀ i x y, l !! i = Some x → l !! S i = Some y → cmp x y ≤ 0) →
  InMemoryEventStore.sort cmp l = l.
Proof.
  unfold InMemoryEventStore.sort.
  induction l as [|x l IH]; intros Hsorted; [done|].
  simpl. rewrite IH by (intros i; apply (Hsorted (S i))).
  destruct l as [|y l]; [done|]. simpl.
  by rewrite bool_decide_eq_true_2 by (by apply (Hsorted 0%nat)).
Qed.

(** One round of [handleCommand]: when the stored events of the
    command's aggregate are in version order and as many as the
    aggregate's current version, and the aggregate, loaded from them,
    answers the command with events the store accepts, the events are
    stored, projected and emitted. *)
Lemma handleCommand_round amb (command : Command) (s : Server.t)
    (st : AccountState) (newEvents : list Event) :
  let E := Commands.aggregateId command in
  let history := InMemoryEventStore.existingEvents E (Server.eventStore s) in
  (∀ i x y, history !! i = Some x → history !! S i = Some y →
            Events.version x - Events.version y ≤ 0) →
  InMemoryEventStore.currentVersion E (Server.eventStore s) =
    Z.of_nat (length history) →
  AccountAggregate.loadFromHistory history (AccountAggregate.new E) =
    (Returned tt, st) →
  (AccountAggregate.handleCommand amb command st).1 = Returned newEvents →
  Forall (passes E (Z.of_nat (length history))) newEvents →
  Server.handleCommand amb command s =
  (Returned newEvents,
   {| Server.eventStore := Server.eventStore s ++ newEvents;
      Server.accountProjection :=
        foldl (λ views event, (AccountProjection.processEvent event views).2)
              (Server.accountProjection s) newEvents |}).
Proof.
  intros E history Hsorted Hcur Hload Hhandle Hpass.
  unfold Server.handleCommand, Server.on_eventStore, Server.on_aggregate,
    Server.on_accountProjection, InMemoryEventStore.getEventsForAggregate.
  exec_unfold.
  change (filter _ (Server.eventStore s)) with history.
  rewrite (sort_sorted _ history Hsorted). fold E. rewrite Hload.
  pose proof (handleCommand_frame amb command st) as Hframe.
  destruct (AccountAggregate.handleCommand amb command st) as [r st'].
  simpl in Hhandle, Hframe. subst r st'.
  rewrite <- Hcur in Hpass |- *.
  cbn [Server.eventStore Server.accountProjection].
  rewrite (saveEvents_accepted E newEvents (Server.eventStore s) Hpass).
  cbn [Server.eventStore Server.accountProjection].
  by rewrite for_of_processEvent.
Qed.

Lemma processEvent_lookup_at E (event : Event) (views : gmap string AccountView) :
  Events.aggregateId event = E →
  (AccountProjection.processEvent event views).2 !! E =
  Some (AccountProjection.update event
          (default (AccountProjection.fresh E (Events.timestamp event))
                   (views !! E))).
Proof. intros <-. apply processEvent_lookup. Qed.

Ltac scenario_unfold :=
  unfold create_user, deposit_100, withdraw_40, close_account, command_for,
    user_created, funds_deposited, funds_withdrawn, account_closed, emitted;
  cbn [Commands.aggregateId Commands.data Server.eventStore Server.init
       Server.accountProjection app fst snd].

Ltac scenario_history :=
  scenario_unfold;
  rewrite ?existingEvents_all by (repeat constructor);
  cbn [length].

(** A list of at most four events is in version order. *)
Ltac scenario_sorted :=
  intros i x y;
  do 4 (destruct i as [|i];
        [simpl; intros Hx Hy; simplify_eq; simpl; lia|]);
  simpl; intros Hx; discriminate Hx.

Ltac scenario_round :=
  eapply handleCommand_round;
  [ scenario_history; scenario_sorted
  | unfold InMemoryEventStore.currentVersion; scenario_history; reflexivity
  | scenario_history; reflexivity
  | scenario_unfold; reflexivity
  | scenario_history; constructor; [split; reflexivity|constructor] ].

(** C6 (the claim as stated fails).  The view has no version field, so
    "version 4" is not something the final view shows: the log of the
    scenario and [shorter_log] leave the same view of "acc-1", while the
    states folded from them have versions 4 and 3.  No reading of a
    version off the view matches the state on both logs. *)
Lemma C6_final_view_tells_no_version :
  ¬ ∃ view_version : AccountView → Z,
      ∀ (events : list Event) (view : AccountView),
        events ∈ [scenario_log; shorter_log] →
        process_each events !! "acc-1" = Some view →
        view_version view =
        AccountAggregate.version
          (AccountAggregate.loadFromHistory events (AccountAggregate.new "acc-1")).2.
Proof.
  intros (view_version & Hv).
  pose proof (Hv scenario_log _ ltac:(set_solver) eq_refl) as H4.
  pose proof (Hv shorter_log _ ltac:(set_solver) eq_refl) as H3.
  vm_compute in H4, H3. congruence.
Qed.

(** C6 (as amended).  From a server that has handled nothing, the four
    commands of the scenario succeed in turn and emit one event each,
    with versions 1, 2, 3 and 4.  Afterwards the log of [E] holds these
    four events and its current version is 4; the state an aggregate
    loads from the log has balance 60, is closed and has version 4; the
    view of [E] has balance 60 and is closed. *)
Theorem C6_scenario_state_and_view
    (E name email currency1 currency2 reason : string)
    (meta1 meta2 meta3 meta4 : string * Z) (amb1 amb2 amb3 amb4 : Ambient) :
  let e1 := user_created E name email amb1 in
  let e2 := funds_deposited E currency1 amb2 in
  let e3 := funds_withdrawn E currency2 amb3 in
  let e4 := account_closed E reason amb4 in
  ∃ s1 s2 s3 s4 : Server.t,
    Server.handleCommand amb1 (create_user E name email meta1) Server.init =
      (Returned [e1], s1) ∧
    Server.handleCommand amb2 (deposit_100 E currency1 meta2) s1 =
      (Returned [e2], s2) ∧
    Server.handleCommand amb3 (withdraw_40 E currency2 meta3) s2 =
      (Returned [e3], s3) ∧
    Server.handleCommand amb4 (close_account E reason meta4) s3 =
      (Returned [e4], s4) ∧
    Events.version <$> [e1; e2; e3; e4] = [1; 2; 3; 4] ∧
    InMemoryEventStore.getEventsForAggregate E (Server.eventStore s4) =
      (Returned [e1; e2; e3; e4], Server.eventStore s4) ∧
    InMemoryEventStore.currentVersion E (Server.eventStore s4) = 4 ∧
    (∃ st : AccountState,
       AccountAggregate.loadFromHistory [e1; e2; e3; e4] (AccountAggregate.new E) =
         (Returned tt, st) ∧
       AccountAggregate.balance st = 60%float ∧
       AccountAggregate.isClosed st = true ∧
       AccountAggregate.version st = 4) ∧
    (∃ view : AccountView,
       Server.accountProjection s4 !! E = Some view ∧
       AccountProjection.balance view = 60%float ∧
       AccountProjection.isClosed view = true).
Proof.
  intros e1 e2 e3 e4. subst e1 e2 e3 e4.
  eexists _, _, _, _.
  split; [scenario_round|].
  split; [scenario_round|].
  split; [scenario_round|].
  split; [scenario_round|].
  split; [reflexivity|].
  split.
  { unfold InMemoryEventStore.getEventsForAggregate. exec_unfold.
    scenario_unfold.
    change (filter (λ event, Events.aggregateId event = E) ?l)
      with (InMemoryEventStore.existingEvents E l).
    rewrite existingEvents_all by (repeat constructor).
    rewrite sort_sorted; [reflexivity|]. scenario_sorted. }
  split.
  { unfold InMemoryEventStore.currentVersion. scenario_history. reflexivity. }
  split.
  { eexists. split; [reflexivity|]. repeat split. }
  scenario_unfold. cbn [foldl].
  rewrite !processEvent_lookup_at by reflexivity. rewrite lookup_empty.
  eexists. split; [reflexivity|]. split; reflexivity.
Qed.

End server.

(** * Further properties of the code *)

(** ** Sorting in the event store *)

Section sorting.
Context {A : Type} (key : A → Z).

Let cmp : A → A → Z := λ a b, key a - key b.

Lemma insert_sorted_Permutation (c : A → A → Z) (x : A) (l : list A) :
  InMemoryEventStore.insert_sorted c x l ≡ₚ x :: l.
Proof.
  induction l as [|y l IH]; simpl; [done|].
  case_bool_decide; [done|]. rewrite IH. apply Permutation_swap.
Qed.

Lemma sort_Permutation (c : A → A → Z) (l : list A) :
  InMemoryEventStore.sort c l ≡ₚ l.
Proof.
  unfold InMemoryEventStore.sort. induction l as [|x l IH]; simpl; [done|].
  by rewrite insert_sorted_Permutation, IH.
Qed.

Lemma insert_sorted_StronglySorted (x : A) (l : list A) :
  StronglySorted (λ a b, key a ≤ key b) l →
  StronglySorted (λ a b, key a ≤ key b) (InMemoryEventStore.insert_sorted cmp x l).
Proof.
  induction 1 as [|y l Hl IH Hy]; simpl.
  { repeat constructor. }
  unfold cmp at 1. case_bool_decide as Hxy.
  - constructor; [by constructor|]. constructor; [lia|].
    eapply Forall_impl; [exact Hy|]. intros z Hz. simpl in Hz. lia.
  - constructor; [done|].
    rewrite insert_sorted_Permutation. constructor; [lia|done].
Qed.

Lemma sort_StronglySorted (l : list A) :
  StronglySorted (λ a b, key a ≤ key b) (InMemoryEventStore.sort cmp l).
Proof.
  unfold InMemoryEventStore.sort. induction l as [|x l IH]; simpl.
  - constructor.
  - by apply insert_sorted_StronglySorted.
Qed.

(** The elements of one key keep their order. *)
Lemma insert_sorted_stable (k : Z) (x : A) (l : list A) :
  filter (λ a, key a = k) (InMemoryEventStore.insert_sorted cmp x l) =
  filter (λ a, key a = k) (x :: l).
Proof.
  induction l as [|y l IH]; simpl; [done|].
  unfold cmp at 1. case_bool_decide as Hxy; [done|].
  rewrite (filter_cons _ y), IH, !filter_cons.
  destruct (decide (key y = k)), (decide (key x = k)); try done. lia.
Qed.

Lemma sort_stable (k : Z) (l : list A) :
  filter (λ a, key a = k) (InMemoryEventStore.sort cmp l) =
  filter (λ a, key a = k) l.
Proof.
  unfold InMemoryEventStore.sort. induction l as [|x l IH]; simpl; [done|].
  by rewrite insert_sorted_stable, !filter_cons, IH.
Qed.

End sorting.

Section store_reads.
Import InMemoryEventStore.

(** X1.  [getEventsForAggregate] never throws and leaves the log as it
    is.  It returns the stored events of the aggregate and no others,
    each as often as it is stored, in ascending order of version; events
    of the same version come in the order of the log. *)
Theorem X1_getEventsForAggregate_sorted aggregateId (s : list Event) :
  ∃ events,
    getEventsForAggregate aggregateId s = (Returned events, s) ∧
    events ≡ₚ existingEvents aggregateId s ∧
    Forall (λ e, Events.aggregateId e = aggregateId) events ∧
    StronglySorted (λ a b, Events.version a ≤ Events.version b) events ∧
    ∀ v, filter (λ e, Events.version e = v) events =
         filter (λ e, Events.version e = v) (existingEvents aggregateId s).
Proof.
  eexists. split; [reflexivity|].
  fold (existingEvents aggregateId s).
  split; [apply sort_Permutation|].
  split.
  { rewrite sort_Permutation. unfold existingEvents.
    apply Forall_forall. intros e He. by apply list_elem_of_filter in He as [? _]. }
  split; [apply (sort_StronglySorted Events.version)|].
  intros v. apply (sort_stable Events.version).
Qed.

(** X2.  [getAllEvents] never throws and leaves the log as it is.  It
    returns the events of the log, each as often as it is stored, in
    ascending order of timestamp; events of the same timestamp come in
    the order of the log. *)
Theorem X2_getAllEvents_sorted_stable (s : list Event) :
  ∃ events,
    getAllEvents s = (Returned events, s) ∧
    events ≡ₚ s ∧
    StronglySorted (λ a b, Events.timestamp a ≤ Events.timestamp b) events ∧
    ∀ t, filter (λ e, Events.timestamp e = t) events =
         filter (λ e, Events.timestamp e = t) s.
Proof.
  eexists. split; [reflexivity|].
  split; [apply sort_Permutation|].
  split; [apply (sort_StronglySorted Events.timestamp)|].
  intros t. apply (sort_stable Events.timestamp).
Qed.

End store_reads.

(** ** Appending to the event store *)

Section store_writes.
Import InMemoryEventStore.

Lemma existingEvents_app aggregateId (s1 s2 : list Event) :
  existingEvents aggregateId (s1 ++ s2) =
  existingEvents aggregateId s1 ++ existingEvents aggregateId s2.
Proof. apply filter_app. Qed.

Lemma existingEvents_other aggregateId other (events : list Event) :
  Forall (λ e, Events.aggregateId e = aggregateId) events →
  other ≠ aggregateId →
  existingEvents other events = [].
Proof.
  intros Hall Hne. unfold existingEvents.
  induction Hall as [|e events He _ IH]; [done|].
  rewrite filter_cons_False by congruence. exact IH.
Qed.

Lemma currentVersion_other aggregateId other (s events : list Event) :
  Forall (λ e, Events.aggregateId e = aggregateId) events →
  other ≠ aggregateId →
  currentVersion other (s ++ events) = currentVersion other s.
Proof.
  intros Hall Hne. unfold currentVersion.
  rewrite existingEvents_app, (existingEvents_other aggregateId other events) by done.
  by rewrite app_nil_r.
Qed.

(** The current version after a batch that passed validation. *)
Lemma currentVersion_after_batch aggregateId (s events : list Event) :
  events ≠ [] →
  Forall (passes aggregateId (currentVersion aggregateId s)) events →
  currentVersion aggregateId (s ++ events) = currentVersion aggregateId s + 1.
Proof.
  intros Hne Hpass.
  apply (is_current_version_unique aggregateId (s ++ events));
    [apply currentVersion_spec|].
  assert (existingEvents aggregateId events = events) as Hall.
  { apply existingEvents_all. eapply Forall_impl; [exact Hpass|]. by intros e [? _]. }
  assert (∀ w, w ∈ Events.version <$> events → w = currentVersion aggregateId s + 1)
    as Hnew.
  { intros w Hw. apply list_elem_of_fmap in Hw as (e & -> & He).
    rewrite Forall_forall in Hpass. by apply Hpass. }
  right. unfold is_current_version. cbn zeta.
  rewrite existingEvents_app, Hall, fmap_app. split.
  - apply elem_of_app. right. destruct events as [|e events]; [done|].
    rewrite fmap_cons. apply elem_of_cons. left. symmetry. apply Hnew.
    rewrite fmap_cons. apply elem_of_cons. by left.
  - intros w Hw. apply elem_of_app in Hw as [Hw|Hw].
    + destruct (currentVersion_spec aggregateId s) as [[Hnil _]|[_ Hub]].
      * unfold is_current_version in Hnil. rewrite Hnil in Hw.
        by apply elem_of_nil in Hw.
      * specialize (Hub w Hw). lia.
    + rewrite (Hnew w Hw). lia.
Qed.

(** What a call of [saveEvents] that returns has done. *)
Lemma saveEvents_returned aggregateId events expectedVersion (s s' : list Event) :
  saveEvents aggregateId events expectedVersion s = (Returned tt, s') →
  currentVersion aggregateId s = expectedVersion ∧
  Forall (passes aggregateId expectedVersion) events ∧
  s' = s ++ events.
Proof.
  intros Hrun.
  destruct (decide (currentVersion aggregateId s = expectedVersion)) as [<-|Hne];
    [|by rewrite saveEvents_stale in Hrun].
  destruct (decide (Forall (passes aggregateId (currentVersion aggregateId s)) events))
    as [Hpass|Hfail].
  - rewrite saveEvents_accepted in Hrun by done. by simplify_eq.
  - destruct (saveEvents_rejected _ _ _ Hfail) as (err & Heq & _).
    by rewrite Heq in Hrun.
Qed.

(** X3.  A call of [saveEvents] that returns has put the batch at the
    end of the log and nothing else; every event of the batch is of the
    aggregate and has the version expected plus one.  If the batch is
    not empty the current version of the aggregate has gone up by
    exactly one, however many events the batch holds; the events and the
    current version of every other aggregate are as before. *)
Theorem X3_saveEvents_advances_by_one aggregateId events expectedVersion
    (s s' : list Event) :
  saveEvents aggregateId events expectedVersion s = (Returned tt, s') →
  s' = s ++ events ∧
  Forall (λ e, Events.aggregateId e = aggregateId ∧
               Events.version e = expectedVersion + 1) events ∧
  currentVersion aggregateId s = expectedVersion ∧
  (events ≠ [] → currentVersion aggregateId s' = expectedVersion + 1) ∧
  ∀ other, other ≠ aggregateId →
    existingEvents other s' = existingEvents other s ∧
    currentVersion other s' = currentVersion other s.
Proof.
  intros Hrun. apply saveEvents_returned in Hrun as (Hcur & Hpass & ->).
  subst expectedVersion.
  assert (Forall (λ e, Events.aggregateId e = aggregateId) events) as Hall.
  { eapply Forall_impl; [exact Hpass|]. by intros e [? _]. }
  split; [done|]. split; [exact Hpass|]. split; [done|]. split.
  { intros Hne. by apply currentVersion_after_batch. }
  intros other Hother. split.
  - rewrite existingEvents_app, (existingEvents_other aggregateId other events) by done.
    by rewrite app_nil_r.
  - by apply (currentVersion_other aggregateId).
Qed.

Lemma X3_saveEvents_advances_by_one_witness :
  let e1 := Sample.event "acc-1" 1 (Events.ACCOUNT_CLOSED "a") in
  let e2 := Sample.event "acc-1" 1 (Events.ACCOUNT_CLOSED "b") in
  currentVersion "acc-1" ([] ++ [e1; e2]) = 0 + 1.
Proof.
  intros e1 e2.
  destruct (X3_saveEvents_advances_by_one "acc-1" [e1; e2] 0 [] ([] ++ [e1; e2]) eq_refl)
    as (_ & _ & _ & Hnext & _).
  apply Hnext. discriminate.
Defined.

(** X4.  Optimistic concurrency.  Once a call of [saveEvents] with a
    batch that is not empty has returned, a second call for the same
    aggregate with the same expected version throws the concurrency
    error, whatever its batch, and the log keeps the first batch only. *)
Theorem X4_second_writer_rejected aggregateId first second expectedVersion
    (s s' : list Event) :
  first ≠ [] →
  saveEvents aggregateId first expectedVersion s = (Returned tt, s') →
  saveEvents aggregateId second expectedVersion s' =
  (Thrown (ConcurrencyError expectedVersion (expectedVersion + 1)), s ++ first).
Proof.
  intros Hne Hrun. apply saveEvents_returned in Hrun as (Hcur & Hpass & ->).
  subst expectedVersion.
  rewrite saveEvents_stale;
    rewrite currentVersion_after_batch by done; [done|lia].
Qed.

Lemma X4_second_writer_rejected_witness :
  let e := Sample.event "acc-1" 1 (Events.ACCOUNT_CLOSED "a") in
  saveEvents "acc-1" [Sample.event "acc-1" 1 (Events.FUNDS_DEPOSITED 5 "USD")] 0
    ([] ++ [e]) =
  (Thrown (ConcurrencyError 0 (0 + 1)), [] ++ [e]).
Proof.
  intros e.
  apply (X4_second_writer_rejected "acc-1" [e] _ 0 [] ([] ++ [e]));
    [discriminate|reflexivity].
Defined.

End store_writes.

(** ** Folding events into the state of the aggregate *)

Section aggregate_fold.
Import AccountAggregate.

Lemma loadFromHistory_app (earlier later : list Event) (st : AccountState) :
  (loadFromHistory (earlier ++ later) st).2 =
  (loadFromHistory later (loadFromHistory earlier st).2).2.
Proof.
  unfold loadFromHistory. revert st.
  induction earlier as [|event earlier IH]; intros st; [done|].
  destruct (applyEvent_run event st) as (st1 & Hrun & _).
  rewrite <- app_comm_cons, !(for_of_cons_returned _ _ _ _ _ Hrun). apply IH.
Qed.

Lemma applyEvent_fields (event : Event) (st : AccountState) :
  balance (applyEvent event st).2 = balance_step (balance st) event ∧
  (isClosed st = true → isClosed (applyEvent event st).2 = true) ∧
  aggregateId (applyEvent event st).2 = aggregateId st.
Proof.
  unfold applyEvent, balance_step. exec_unfold.
  destruct (Events.data event); simpl; repeat split; auto.
Qed.

Lemma loadFromHistory_fields (events : list Event) (st : AccountState) :
  balance (loadFromHistory events st).2 =
    foldl balance_step (balance st) events ∧
  (isClosed st = true → isClosed (loadFromHistory events st).2 = true) ∧
  aggregateId (loadFromHistory events st).2 = aggregateId st.
Proof.
  revert st. induction events as [|event events IH]; intros st.
  { simpl. repeat split; auto. }
  rewrite (loadFromHistory_app [event] events).
  destruct (IH (loadFromHistory [event] st).2) as (Hb & Hc & Ha).
  assert ((loadFromHistory [event] st).2 = (applyEvent event st).2) as Hone.
  { destruct (applyEvent_run event st) as (st1 & Hrun & _).
    unfold loadFromHistory. rewrite (for_of_cons_returned _ _ _ _ _ Hrun).
    by rewrite Hrun. }
  rewrite Hone in *.
  destruct (applyEvent_fields event st) as (Hb1 & Hc1 & Ha1).
  rewrite Hb, Ha, Hb1, Ha1. simpl. repeat split; auto.
Qed.

(** X5.  [loadFromHistory] never throws.  It leaves the version of the
    last event (the version as it was when there is no event), and the
    aggregate's id and currency as they were.  The balance is the
    balance before with each deposit added and each withdrawal
    subtracted, one event after the other in the order of the list, each
    sum and difference being one of doubles; no other part of an event,
    its aggregate id included, has a say in it. *)
Theorem X5_loadFromHistory_totals (events : list Event) (st : AccountState) :
  ∃ st', loadFromHistory events st = (Returned tt, st') ∧
    version st' = default (version st) (last (Events.version <$> events)) ∧
    balance st' = foldl balance_step (balance st) events ∧
    aggregateId st' = aggregateId st ∧
    currency st' = currency st.
Proof.
  destruct (loadFromHistory_run events st) as (st' & Hrun & Hv & Hc).
  destruct (loadFromHistory_fields events st) as (Hb & _ & Ha).
  rewrite Hrun in Hb, Ha. eauto 10.
Qed.

(** The sums are those of doubles: after deposits of 2^53, 1 and 1 the
    balance is 2^53. *)
Example loadFromHistory_rounds :
  balance (loadFromHistory
             [Sample.event "acc-1" 1 (Events.FUNDS_DEPOSITED 9007199254740992 "USD");
              Sample.event "acc-1" 2 (Events.FUNDS_DEPOSITED 1 "USD");
              Sample.event "acc-1" 3 (Events.FUNDS_DEPOSITED 1 "USD")]
             (new "acc-1")).2 = 9007199254740992%float.
Proof. reflexivity. Qed.

(** X6.  Loading a history in two parts, one after the other, leaves
    the state that loading it in one go leaves. *)
Theorem X6_loadFromHistory_in_parts (earlier later : list Event)
    (st : AccountState) :
  (loadFromHistory later (loadFromHistory earlier st).2) =
  loadFromHistory (earlier ++ later) st.
Proof.
  destruct (loadFromHistory_run (earlier ++ later) st) as (st2 & Hrun2 & _).
  destruct (loadFromHistory_run later (loadFromHistory earlier st).2)
    as (st1 & Hrun1 & _).
  pose proof (loadFromHistory_app earlier later st) as Happ.
  rewrite Hrun1, Hrun2 in *. simpl in Happ. by subst.
Qed.

(** An accepted command and the event it returns. *)
Lemma handleCommand_event amb (command : Command) (st : AccountState) events :
  (handleCommand amb command st).1 = Returned events →
  ∃ event, events = [event] ∧
    Events.version event = version st + 1 ∧
    Events.aggregateId event = Commands.aggregateId command ∧
    match Commands.data command with
    | Commands.CREATE_USER name email =>
        Events.data event =
        Events.USER_CREATED (Commands.aggregateId command) name email
    | Commands.DEPOSIT_FUNDS amount currency =>
        Events.data event = Events.FUNDS_DEPOSITED amount currency ∧
        (amount <=? 0)%float = false
    | Commands.WITHDRAW_FUNDS amount currency =>
        Events.data event = Events.FUNDS_WITHDRAWN amount currency ∧
        (amount <=? 0)%float = false ∧ (balance st <? amount)%float = false
    | Commands.CLOSE_ACCOUNT reason =>
        Events.data event = Events.ACCOUNT_CLOSED reason
    end.
Proof.
  unfold handleCommand, handleCreateUser, handleDepositFunds,
    handleWithdrawFunds, handleCloseAccount.
  destruct (Commands.data command); exec_unfold;
    repeat match goal with
      | |- context [if ?b then _ else _] => destruct b eqn:?
      end;
    simpl; intros [= <-]; eexists; (split; [reflexivity|]); simpl;
    repeat split; done.
Qed.

(** X7.  Decide, then apply.  When [handleCommand] accepts a command,
    loading the returned events into the same aggregate raises its
    version by one.  The balance becomes the balance plus the amount
    for a deposit and the balance minus the amount for a withdrawal, in
    double arithmetic, and stays for the other commands.  The amount of
    an accepted deposit or withdrawal is one for which [amount <= 0] is
    false, and for a withdrawal [balance < amount] is false as well;
    NaN is such an amount. *)
Theorem X7_accepted_command_applied amb (command : Command)
    (st : AccountState) events :
  (handleCommand amb command st).1 = Returned events →
  let st' := (loadFromHistory events st).2 in
  version st' = version st + 1 ∧
  match Commands.data command with
  | Commands.DEPOSIT_FUNDS amount _ =>
      balance st' = (balance st + amount)%float ∧
      (amount <=? 0)%float = false
  | Commands.WITHDRAW_FUNDS amount _ =>
      balance st' = (balance st - amount)%float ∧
      (amount <=? 0)%float = false ∧ (balance st <? amount)%float = false
  | _ => balance st' = balance st
  end.
Proof.
  intros Hret st'. subst st'.
  destruct (handleCommand_event amb command st events Hret)
    as (event & -> & Hv & _ & Hdata).
  destruct (loadFromHistory_run [event] st) as (st' & Hrun & Hv' & _).
  destruct (loadFromHistory_fields [event] st) as (Hb & _).
  rewrite Hrun in Hb |- *. cbn [snd] in Hb |- *. simpl in Hv'.
  rewrite Hv', Hb, Hv. unfold balance_step. simpl.
  destruct (Commands.data command).
  - by rewrite Hdata.
  - destruct Hdata as [-> ?]. done.
  - destruct Hdata as [-> ?]. done.
  - by rewrite Hdata.
Qed.

Lemma X7_accepted_command_applied_witness :
  let events := [ {| Events.eventId := "uuid"; Events.aggregateId := "acc-1";
                     Events.timestamp := 7; Events.version := 3;
                     Events.data := Events.FUNDS_WITHDRAWN nan "USD" |} ] in
  version (loadFromHistory events Sample.open_account).2 = 2 + 1 ∧
  balance (loadFromHistory events Sample.open_account).2 = (100 - nan)%float.
Proof.
  intros events.
  destruct (X7_accepted_command_applied (Sample.ambient 7)
              (Sample.command "acc-1" (Commands.WITHDRAW_FUNDS nan "USD"))
              Sample.open_account events eq_refl) as (Hv & Hb & _).
  split; [exact Hv|exact Hb].
Defined.

(** X8.  Closing is for good.  Whatever the state was, once a history
    with an ACCOUNT_CLOSED event in it is loaded the aggregate is
    closed, whatever events come after it, and it refuses every
    deposit, withdrawal and closing with a domain error. *)
Theorem X8_closed_for_good (before after : list Event) (closing : Event)
    reason (st : AccountState) amb (command : Command) :
  Events.data closing = Events.ACCOUNT_CLOSED reason →
  let st' := (loadFromHistory (before ++ closing :: after) st).2 in
  isClosed st' = true ∧
  ((∀ name email, Commands.data command ≠ Commands.CREATE_USER name email) →
   ∃ err, handleCommand amb command st' = (Thrown err, st') ∧
          isDomainError err = true).
Proof.
  intros Hdata st'.
  assert (isClosed st' = true) as Hclosed.
  { subst st'. rewrite (loadFromHistory_app before (closing :: after)).
    rewrite (loadFromHistory_app [closing] after).
    apply loadFromHistory_fields.
    destruct (applyEvent_run closing (loadFromHistory before st).2)
      as (st1 & Hrun & _).
    unfold loadFromHistory at 1. rewrite (for_of_cons_returned _ _ _ _ _ Hrun).
    simpl. revert Hrun. unfold applyEvent. rewrite Hdata. exec_unfold.
    by intros [= <-]. }
  split; [done|]. intros Hcmd.
  unfold handleCommand, handleDepositFunds, handleWithdrawFunds,
    handleCloseAccount.
  destruct (Commands.data command) as [name email| | |];
    [by destruct (Hcmd name email)|..];
    exec_unfold; rewrite Hclosed; eexists; split; reflexivity.
Qed.

Lemma X8_closed_for_good_witness :
  let st' := (loadFromHistory
                ([] ++ Sample.event "acc-1" 3 (Events.ACCOUNT_CLOSED "done")
                    :: [Sample.event "acc-1" 4 (Events.FUNDS_DEPOSITED 5 "USD")])
                Sample.open_account).2 in
  isClosed st' = true ∧
  ∃ err, handleCommand (Sample.ambient 9)
           (Sample.command "acc-1" (Commands.WITHDRAW_FUNDS 1 "USD")) st' =
         (Thrown err, st') ∧ isDomainError err = true.
Proof.
  intros st'.
  destruct (X8_closed_for_good []
              [Sample.event "acc-1" 4 (Events.FUNDS_DEPOSITED 5 "USD")]
              (Sample.event "acc-1" 3 (Events.ACCOUNT_CLOSED "done")) "done"
              Sample.open_account (Sample.ambient 9)
              (Sample.command "acc-1" (Commands.WITHDRAW_FUNDS 1 "USD")) eq_refl)
    as [Hclosed Hrefused].
  split; [exact Hclosed|]. apply Hrefused. discriminate.
Defined.

(** X9.  A user is created once, unless the aggregate id is empty.
    After an accepted CREATE_USER command is applied, a further
    CREATE_USER is refused with "User already exists" exactly when the
    aggregate id of the first command is not the empty string: the guard
    tests [userId] for truthiness and the empty string is falsy.  The
    guard does not look at the closed flag. *)
Theorem X9_create_user_once amb amb' (command command' : Command)
    name email name' email' (st : AccountState) events :
  Commands.data command = Commands.CREATE_USER name email →
  Commands.data command' = Commands.CREATE_USER name' email' →
  (handleCommand amb command st).1 = Returned events →
  let st' := (loadFromHistory events st).2 in
  userId st' = Some (Commands.aggregateId command) ∧
  ((handleCommand amb' command' st').1 = Thrown UserAlreadyExists
   ↔ Commands.aggregateId command ≠ EmptyString) ∧
  (Commands.aggregateId command = EmptyString →
   ∃ event, (handleCommand amb' command' st').1 = Returned [event] ∧
            Events.version event = version st + 2).
Proof.
  intros Hdata Hdata' Hret st'.
  destruct (handleCommand_event amb command st events Hret)
    as (event & -> & Hv & _ & Hev).
  rewrite Hdata in Hev.
  assert (userId st' = Some (Commands.aggregateId command) ∧
          version st' = version st + 1) as [Huser Hver].
  { subst st'. unfold loadFromHistory. simpl. unfold applyEvent.
    rewrite Hev. exec_unfold. simpl. split; [done|lia]. }
  split; [done|].
  unfold handleCommand, handleCreateUser. rewrite Hdata'. exec_unfold.
  rewrite Huser, Hver. unfold truthy.
  destruct (decide (Commands.aggregateId command = EmptyString)) as [Hempty|Hne].
  - rewrite bool_decide_eq_false_2 by (intros ?; done). simpl.
    split; [split; [discriminate|done]|].
    intros _. eexists. split; [reflexivity|]. simpl. lia.
  - rewrite bool_decide_eq_true_2 by done. simpl.
    split; [done|]. intros ?; done.
Qed.

Lemma X9_create_user_once_witness :
  let first := Sample.command "" (Commands.CREATE_USER "Ada" "ada@example.org") in
  let st' :=
    (loadFromHistory
       [ {| Events.eventId := "uuid"; Events.aggregateId := "";
            Events.timestamp := 1; Events.version := 1;
            Events.data := Events.USER_CREATED "" "Ada" "ada@example.org" |} ]
       (new "")).2 in
  ∃ event, (handleCommand (Sample.ambient 2) first st').1 = Returned [event] ∧
           Events.version event = 0 + 2.
Proof.
  intros first st'.
  destruct (X9_create_user_once (Sample.ambient 1) (Sample.ambient 2) first first
              "Ada" "ada@example.org" "Ada" "ada@example.org" (new "") _
              eq_refl eq_refl eq_refl) as (_ & _ & Hagain).
  apply Hagain. reflexivity.
Defined.

Lemma balance_step_nan (events : list Event) :
  foldl balance_step nan events = nan.
Proof.
  induction events as [|event events IH]; [done|].
  cbn [foldl]. unfold balance_step at 2.
  destruct (Events.data event); by rewrite ?add_nan_l, ?sub_nan_l.
Qed.

(** X17.  NaN takes the balance over.  Once a deposit or a withdrawal
    event whose amount is NaN is loaded, the balance is NaN, whatever it
    was and whatever events follow.  An aggregate with that balance, if
    it is not closed, accepts every withdrawal whose amount passes the
    guard [amount <= 0], however large: [balance < amount] is false when
    the balance is NaN, so "Insufficient funds" is never thrown. *)
Theorem X17_nan_balance_covers_all (st : AccountState) (event : Event)
    (later : list Event) currency amb (command : Command) amount currency' :
  Events.data event = Events.FUNDS_DEPOSITED nan currency ∨
  Events.data event = Events.FUNDS_WITHDRAWN nan currency →
  let st' := (loadFromHistory (event :: later) st).2 in
  balance st' = nan ∧
  (isClosed st' = false →
   Commands.data command = Commands.WITHDRAW_FUNDS amount currency' →
   (amount <=? 0)%float = false →
   (handleCommand amb command st').1 =
   Returned [ {| Events.eventId := uuidv4 amb;
                 Events.aggregateId := Commands.aggregateId command;
                 Events.timestamp := now amb;
                 Events.version := version st' + 1;
                 Events.data := Events.FUNDS_WITHDRAWN amount currency' |} ]).
Proof.
  intros Hdata st'.
  assert (balance st' = nan) as Hnan.
  { subst st'. destruct (loadFromHistory_fields (event :: later) st) as (-> & _).
    cbn [foldl]. unfold balance_step at 2.
    destruct Hdata as [-> | ->]; by rewrite ?add_nan_r, ?sub_nan_r, balance_step_nan. }
  split; [done|]. intros Hopen Hcmd Hpos.
  unfold handleCommand, handleWithdrawFunds. rewrite Hcmd. exec_unfold.
  by rewrite Hopen, Hpos, Hnan, ltb_nan_l.
Qed.

Lemma X17_nan_balance_covers_all_witness :
  let st' :=
    (loadFromHistory
       [Sample.event "acc-1" 3 (Events.FUNDS_WITHDRAWN nan "USD")]
       Sample.open_account).2 in
  balance st' = nan ∧
  (handleCommand (Sample.ambient 9)
     (Sample.command "acc-1" (Commands.WITHDRAW_FUNDS 1000000 "USD")) st').1 =
  Returned [ {| Events.eventId := "uuid"; Events.aggregateId := "acc-1";
                Events.timestamp := 9; Events.version := 3 + 1;
                Events.data := Events.FUNDS_WITHDRAWN 1000000 "USD" |} ].
Proof.
  intros st'.
  destruct (X17_nan_balance_covers_all Sample.open_account
              (Sample.event "acc-1" 3 (Events.FUNDS_WITHDRAWN nan "USD")) []
              "USD" (Sample.ambient 9)
              (Sample.command "acc-1" (Commands.WITHDRAW_FUNDS 1000000 "USD"))
              1000000 "USD" (or_intror eq_refl)) as [Hnan Haccept].
  split; [exact Hnan|]. apply Haccept; reflexivity.
Defined.

End aggregate_fold.

(** ** Folding events into the views of the projection *)

Section projection_fold.
Import AccountProjection.

(** The view of [E] after a loop of [processEvent] is made from the
    view before and the events of [E], in order. *)
Lemma for_of_processEvent_lookup E (events : list Event)
    (views : gmap string AccountView) :
  (for_of events processEvent views).2 !! E =
  foldl (view_step E) (views !! E) (InMemoryEventStore.existingEvents E events).
Proof.
  rewrite for_of_processEvent. cbn [snd].
  unfold InMemoryEventStore.existingEvents.
  revert views. induction events as [|event events IH]; intros views; [done|].
  cbn [foldl]. rewrite IH.
  destruct (decide (Events.aggregateId event = E)) as [<-|Hne].
  - rewrite filter_cons_True by done. cbn [foldl].
    by rewrite processEvent_lookup.
  - rewrite filter_cons_False by done. by rewrite processEvent_lookup_ne.
Qed.

Lemma update_balance (event : Event) (view : AccountView) :
  balance (update event view) = balance_step (balance view) event.
Proof. unfold update, balance_step. by destruct (Events.data event). Qed.

Lemma view_step_fold E (events : list Event) (view : AccountView) :
  ∃ view', foldl (view_step E) (Some view) events = Some view' ∧
    aggregateId view' = aggregateId view ∧
    balance view' = foldl balance_step (balance view) events ∧
    lastActivity view' =
      default (lastActivity view) (last (Events.timestamp <$> events)) ∧
    (isClosed view = true → isClosed view' = true).
Proof.
  revert view. induction events as [|event events IH]; intros view.
  { exists view. simpl. repeat split; auto. }
  cbn [foldl]. unfold view_step at 2. cbn [default].
  destruct (IH (update event view)) as (view' & Hfold & Ha & Hb & Hl & Hc).
  exists view'. split; [done|]. rewrite Ha, Hb, Hl, update_balance.
  change (Events.timestamp <$> event :: events)
    with (Events.timestamp event :: (Events.timestamp <$> events)).
  rewrite last_cons. revert Hc. unfold update.
  destruct (Events.data event); simpl; intros Hc;
    repeat split; first [by destruct (last _) | by auto].
Qed.

(** X10.  After [processEvent] has run over a list of events on an
    empty projection, the projection holds a view for exactly the
    aggregates that have an event in the list.  The view of an aggregate
    is made of the aggregate's own events alone, in their order: it
    carries the aggregate's id, the timestamp of the last of these
    events as [lastActivity], and as balance 0 with each deposit added
    and each withdrawal subtracted, one after the other in double
    arithmetic; the events of other aggregates have no part in it. *)
Theorem X10_view_of_own_events E (events : list Event) :
  let own := InMemoryEventStore.existingEvents E events in
  process_each events !! E = process_each own !! E ∧
  match process_each events !! E with
  | None => own = []
  | Some view =>
      own ≠ [] ∧
      aggregateId view = E ∧
      balance view = foldl balance_step 0%float own ∧
      Some (lastActivity view) = last (Events.timestamp <$> own)
  end.
Proof.
  intros own. unfold process_each.
  pose proof (for_of_processEvent_lookup E events ∅) as Hall.
  pose proof (for_of_processEvent_lookup E own ∅) as Hown.
  rewrite for_of_processEvent in Hall, Hown. cbn [snd] in Hall, Hown.
  assert (InMemoryEventStore.existingEvents E own = own) as Hidem.
  { apply existingEvents_all. apply Forall_forall. intros e He.
    by apply list_elem_of_filter in He as [? _]. }
  rewrite Hidem in Hown. fold own in Hall. rewrite Hall, Hown.
  split; [done|]. rewrite lookup_empty.
  destruct own as [|event own']; [done|].
  cbn [foldl]. unfold view_step at 2. cbn [default].
  destruct (view_step_fold E own' (update event (fresh E (Events.timestamp event))))
    as (view & -> & Ha & Hb & Hl & _).
  split; [done|]. rewrite Ha, Hb, Hl, update_balance.
  change (Events.timestamp <$> event :: own')
    with (Events.timestamp event :: (Events.timestamp <$> own')).
  rewrite last_cons. unfold update.
  destruct (Events.data event); simpl;
    repeat split; by destruct (last _).
Qed.

Lemma update_twice (event : Event) (view : AccountView) :
  update event (update event view) =
  set_balance (balance_step (balance (update event view)) event)
    (update event view).
Proof. unfold update, balance_step. by destruct (Events.data event). Qed.

Lemma set_balance_update (event : Event) (view : AccountView) :
  set_balance (balance (update event view)) (update event view) =
  update event view.
Proof. unfold update. by destruct (Events.data event). Qed.

(** X11.  [processEvent] is not idempotent.  Handing it the same event
    a second time changes the balance of the view and nothing else: a
    deposit's amount is added once more, a withdrawal's amount
    subtracted once more, in double arithmetic.  The view is as after
    one call exactly when that second sum leaves the balance as it
    was. *)
Theorem X11_processEvent_twice (event : Event) (views : gmap string AccountView) :
  ∃ once twice,
    (processEvent event views).2 !! Events.aggregateId event = Some once ∧
    (processEvent event (processEvent event views).2).2
      !! Events.aggregateId event = Some twice ∧
    twice = set_balance (balance_step (balance once) event) once ∧
    (twice = once ↔ balance_step (balance once) event = balance once).
Proof.
  eexists _, _. split; [apply processEvent_lookup|].
  split; [rewrite !processEvent_lookup; reflexivity|].
  cbn [from_option id]. split; [apply update_twice|].
  rewrite update_twice. split.
  - intros Heq. by apply (f_equal balance) in Heq.
  - intros ->. apply set_balance_update.
Qed.

(** X12.  [rebuildFromEvents] forgets what the list does not mention:
    an aggregate without an event in the list has no view afterwards,
    whatever view it had before; a loop of [processEvent] alone leaves
    the view of such an aggregate as it was. *)
Theorem X12_rebuild_forgets_absent E (events : list Event)
    (views : gmap string AccountView) :
  Forall (λ e, Events.aggregateId e ≠ E) events →
  (rebuildFromEvents events views).2 !! E = None ∧
  (for_of events processEvent views).2 !! E = views !! E.
Proof.
  intros Habsent.
  assert (InMemoryEventStore.existingEvents E events = []) as Hnone.
  { unfold InMemoryEventStore.existingEvents.
    induction Habsent as [|e events He _ IH]; [done|].
    by rewrite filter_cons_False. }
  split.
  - unfold rebuildFromEvents. exec_unfold.
    by rewrite for_of_processEvent_lookup, Hnone.
  - by rewrite for_of_processEvent_lookup, Hnone.
Qed.

Lemma X12_rebuild_forgets_absent_witness :
  let views : gmap string AccountView := {[ "acc-2" := fresh "acc-2" 5 ]} in
  (rebuildFromEvents Sample.history views).2 !! "acc-2" = None ∧
  (for_of Sample.history processEvent views).2 !! "acc-2" = views !! "acc-2".
Proof.
  intros views.
  apply (X12_rebuild_forgets_absent "acc-2" Sample.history views).
  repeat constructor; discriminate.
Defined.

End projection_fold.

(** ** The server on a log numbered without gaps *)

Section server_log.
Import InMemoryEventStore.

Lemma well_numbered_lookup aggregateId (s : list Event) i event :
  well_numbered s →
  existingEvents aggregateId s !! i = Some event →
  Events.version event = Z.of_nat (S i).
Proof.
  intros Hwn Hi.
  assert ((Events.version <$> existingEvents aggregateId s) !! i
          = Some (Events.version event)) as Hv
    by (by rewrite list_lookup_fmap, Hi).
  rewrite (Hwn aggregateId), list_lookup_fmap in Hv.
  destruct (seq 1 (length (existingEvents aggregateId s)) !! i) as [n|] eqn:Hn;
    [|done].
  apply lookup_seq in Hn as [-> _]. by simplify_eq/=.
Qed.

Lemma well_numbered_sorted aggregateId (s : list Event) :
  well_numbered s →
  ∀ i x y, existingEvents aggregateId s !! i = Some x →
           existingEvents aggregateId s !! S i = Some y →
           Events.version x - Events.version y ≤ 0.
Proof.
  intros Hwn i x y Hx Hy.
  rewrite (well_numbered_lookup _ _ _ _ Hwn Hx), (well_numbered_lookup _ _ _ _ Hwn Hy).
  lia.
Qed.

Lemma well_numbered_last aggregateId (s : list Event) :
  well_numbered s →
  default 0 (last (Events.version <$> existingEvents aggregateId s)) =
  Z.of_nat (length (existingEvents aggregateId s)).
Proof.
  intros Hwn. rewrite (Hwn aggregateId).
  destruct (length (existingEvents aggregateId s)) as [|n]; [done|].
  rewrite seq_S, fmap_app. cbn [fmap list_fmap]. by rewrite last_snoc.
Qed.

Lemma well_numbered_currentVersion aggregateId (s : list Event) :
  well_numbered s →
  currentVersion aggregateId s = Z.of_nat (length (existingEvents aggregateId s)).
Proof.
  intros Hwn.
  apply (is_current_version_unique aggregateId s); [apply currentVersion_spec|].
  unfold is_current_version. cbn zeta.
  destruct (existingEvents aggregateId s) as [|e es] eqn:Hex; [by left|right].
  rewrite <- Hex. split.
  - apply list_elem_of_fmap.
    assert (is_Some (last (existingEvents aggregateId s))) as [x Hx]
      by (rewrite Hex, last_cons; by destruct (last es)).
    exists x. rewrite last_lookup in Hx. split.
    + rewrite (well_numbered_lookup _ _ _ _ Hwn Hx). rewrite Hex. simpl. lia.
    + by eapply list_elem_of_lookup_2.
  - intros w Hw. apply list_elem_of_fmap in Hw as (x & -> & Hx).
    apply list_elem_of_lookup in Hx as [i Hi].
    rewrite (well_numbered_lookup _ _ _ _ Hwn Hi).
    apply lookup_lt_Some in Hi. lia.
Qed.

Lemma well_numbered_snoc aggregateId (s : list Event) event :
  well_numbered s →
  passes aggregateId (Z.of_nat (length (existingEvents aggregateId s))) event →
  well_numbered (s ++ [event]).
Proof.
  intros Hwn [Hid Hv] other. rewrite existingEvents_app.
  destruct (decide (other = aggregateId)) as [->|Hne].
  - rewrite (existingEvents_all aggregateId [event]) by (by constructor).
    rewrite length_app, fmap_app, (Hwn aggregateId). simpl.
    rewrite Nat.add_1_r, seq_S, fmap_app. simpl. f_equal. f_equal. lia.
  - rewrite (existingEvents_other aggregateId other [event]) by (by constructor || done).
    rewrite app_nil_r. apply Hwn.
Qed.

Lemma state_of_run aggregateId (s : list Event) :
  AccountAggregate.loadFromHistory (existingEvents aggregateId s)
    (AccountAggregate.new aggregateId) =
  (Returned tt, state_of aggregateId s).
Proof.
  unfold state_of.
  by destruct (loadFromHistory_run (existingEvents aggregateId s)
                 (AccountAggregate.new aggregateId)) as (st & -> & _).
Qed.

Lemma state_of_version aggregateId (s : list Event) :
  well_numbered s →
  AccountAggregate.version (state_of aggregateId s) =
  Z.of_nat (length (existingEvents aggregateId s)).
Proof.
  intros Hwn. unfold state_of.
  destruct (loadFromHistory_run (existingEvents aggregateId s)
              (AccountAggregate.new aggregateId)) as (st & -> & Hv & _).
  cbn [snd]. rewrite Hv. by apply well_numbered_last.
Qed.

(** What [handleCommand] of the server does on a log numbered without
    gaps: what the aggregate, loaded from the log, decides. *)
Lemma handleCommand_outcome amb (command : Command) (s : Server.t) :
  well_numbered (Server.eventStore s) →
  let E := Commands.aggregateId command in
  match (AccountAggregate.handleCommand amb command
           (state_of E (Server.eventStore s))).1 with
  | Returned newEvents =>
      Server.handleCommand amb command s =
      (Returned newEvents,
       {| Server.eventStore := Server.eventStore s ++ newEvents;
          Server.accountProjection :=
            foldl (λ views event, (AccountProjection.processEvent event views).2)
                  (Server.accountProjection s) newEvents |})
  | Thrown err => Server.handleCommand amb command s = (Thrown err, s)
  end.
Proof.
  intros Hwn E.
  destruct (AccountAggregate.handleCommand amb command
              (state_of E (Server.eventStore s))) as [r st'] eqn:Hhandle.
  cbn [fst]. destruct r as [newEvents|err].
  - assert ((AccountAggregate.handleCommand amb command
               (state_of E (Server.eventStore s))).1 = Returned newEvents) as Hret
      by (by rewrite Hhandle).
    apply (handleCommand_round amb command s (state_of E (Server.eventStore s)));
      [by apply well_numbered_sorted
      |by apply well_numbered_currentVersion
      |apply state_of_run
      |done|].
    destruct (handleCommand_returned amb command _ _ Hret)
      as (event & -> & Hv & Hid & _).
    constructor; [|constructor]. split; [done|].
    by rewrite Hv, state_of_version.
  - unfold Server.handleCommand, Server.on_eventStore, Server.on_aggregate,
      getEventsForAggregate.
    exec_unfold.
    change (filter _ (Server.eventStore s)) with (existingEvents E (Server.eventStore s)).
    rewrite (sort_sorted _ _ (well_numbered_sorted E _ Hwn)). fold E.
    rewrite state_of_run, Hhandle. by destruct s.
Qed.

End server_log.

(** ** The server, command after command *)

Section server_run.
Import InMemoryEventStore.

(** X13.  On a log numbered without gaps the events that
    [getEventsForAggregate] returns are the stored events of the
    aggregate in the order of the log, and their number is the current
    version that [saveEvents] computes: the expected version the server
    passes, [events.length], is the current one. *)
Theorem X13_length_is_current_version aggregateId (s : list Event) :
  well_numbered s →
  getEventsForAggregate aggregateId s =
    (Returned (existingEvents aggregateId s), s) ∧
  currentVersion aggregateId s =
    Z.of_nat (length (existingEvents aggregateId s)).
Proof.
  intros Hwn. split; [|by apply well_numbered_currentVersion].
  unfold getEventsForAggregate. exec_unfold.
  fold (existingEvents aggregateId s).
  by rewrite (sort_sorted _ _ (well_numbered_sorted aggregateId s Hwn)).
Qed.

Lemma X13_length_is_current_version_witness :
  getEventsForAggregate "acc-1" Sample.history =
    (Returned (existingEvents "acc-1" Sample.history), Sample.history) ∧
  currentVersion "acc-1" Sample.history =
    Z.of_nat (length (existingEvents "acc-1" Sample.history)).
Proof.
  apply (X13_length_is_current_version "acc-1" Sample.history).
  intros other. unfold existingEvents, Sample.history.
  rewrite !filter_cons, filter_nil. simpl.
  destruct (decide ("acc-1"%string = other)); reflexivity.
Defined.

(** A throw of the server's [handleCommand] leaves the log and the
    projection as they were. *)
Lemma server_handleCommand_thrown amb (command : Command) (s s' : Server.t) err :
  Server.handleCommand amb command s = (Thrown err, s') → s' = s.
Proof.
  unfold Server.handleCommand, Server.on_eventStore, Server.on_aggregate,
    Server.on_accountProjection, getEventsForAggregate.
  exec_unfold. cbn [Server.eventStore Server.accountProjection].
  match goal with
  | |- context [AccountAggregate.loadFromHistory ?h ?a] =>
      destruct (loadFromHistory_run h a) as (st & -> & _)
  end.
  destruct (AccountAggregate.handleCommand amb command st) as [[newEvents|e] st1];
    [|destruct s; by intros [= _ <-]].
  match goal with
  | |- context [saveEvents ?a ?b ?c ?d] =>
      pose proof (saveEvents_thrown_frame a b c d) as Hframe;
      destruct (saveEvents a b c d) as [[[]|e] store']
  end.
  - cbn [Server.eventStore Server.accountProjection].
    rewrite for_of_processEvent. by intros [=].
  - cbn [fst snd] in Hframe. rewrite (Hframe e eq_refl).
    destruct s. by intros [= _ <-].
Qed.

(** X14.  When the current version of the command's aggregate is not
    the number of its stored events, the server's [handleCommand] never
    returns: whatever the command, it throws, and the log and the
    projection stay as they were.  A log with a gap or a repeated
    version blocks its aggregate. *)
Theorem X14_miscounted_log_blocks amb (command : Command) (s : Server.t) :
  let E := Commands.aggregateId command in
  currentVersion E (Server.eventStore s) ≠
    Z.of_nat (length (existingEvents E (Server.eventStore s))) →
  ∃ err, Server.handleCommand amb command s = (Thrown err, s) ∧
         (isDomainError err = true ∨ isConcurrencyError err = true).
Proof.
  intros E Hne.
  destruct (Server.handleCommand amb command s) as [r s'] eqn:Hrun.
  assert (∃ err, r = Thrown err ∧
            (isDomainError err = true ∨ isConcurrencyError err = true))
    as (err & -> & Herr).
  { revert Hrun.
    unfold Server.handleCommand, Server.on_eventStore, Server.on_aggregate,
      Server.on_accountProjection, getEventsForAggregate.
    exec_unfold. cbn [Server.eventStore Server.accountProjection].
    fold E. fold (existingEvents E (Server.eventStore s)).
    match goal with
    | |- context [AccountAggregate.loadFromHistory ?h ?a] =>
        destruct (loadFromHistory_run h a) as (st & -> & _)
    end.
    pose proof (handleCommand_thrown amb command st) as Hdomain.
    destruct (AccountAggregate.handleCommand amb command st) as [[newEvents|e] st1].
    - rewrite saveEvents_stale
        by (rewrite (Permutation_length (sort_Permutation _ _)); done).
      intros [= <- _]. eauto.
    - intros [= <- _]. eexists. split; [done|]. left. by apply Hdomain. }
  apply server_handleCommand_thrown in Hrun as ->. eauto.
Qed.

Lemma X14_miscounted_log_blocks_witness :
  let s := {| Server.eventStore :=
                [Sample.event "acc-1" 5 (Events.FUNDS_DEPOSITED 10 "USD")];
              Server.accountProjection := ∅ |} in
  ∃ err, Server.handleCommand (Sample.ambient 9)
           (Sample.command "acc-1" (Commands.DEPOSIT_FUNDS 1 "USD")) s =
           (Thrown err, s) ∧
         (isDomainError err = true ∨ isConcurrencyError err = true).
Proof.
  intros s.
  apply (X14_miscounted_log_blocks (Sample.ambient 9)
           (Sample.command "acc-1" (Commands.DEPOSIT_FUNDS 1 "USD")) s).
  vm_compute. discriminate.
Defined.

End server_run.

Section server_invariants.
Import InMemoryEventStore.

(** One accepted command keeps the three properties of the server's
    state. *)
Lemma handleCommand_returned_step amb (command : Command) (s s' : Server.t)
    events :
  well_numbered (Server.eventStore s) →
  Server.handleCommand amb command s = (Returned events, s') →
  ∃ event, events = [event] ∧
    (AccountAggregate.handleCommand amb command
       (state_of (Commands.aggregateId command) (Server.eventStore s))).1 =
      Returned [event] ∧
    Events.aggregateId event = Commands.aggregateId command ∧
    Events.version event =
      Z.of_nat (length (existingEvents (Commands.aggregateId command)
                          (Server.eventStore s))) + 1 ∧
    Server.eventStore s' = Server.eventStore s ++ [event] ∧
    Server.accountProjection s' =
      (AccountProjection.processEvent event (Server.accountProjection s)).2 ∧
    well_numbered (Server.eventStore s').
Proof.
  intros Hwn Hrun.
  pose proof (handleCommand_outcome amb command s Hwn) as Hout. cbn zeta in Hout.
  destruct (AccountAggregate.handleCommand amb command _) as [[newEvents|err] st']
    eqn:Hhandle; cbn [fst] in Hout; rewrite Hout in Hrun; [|done].
  injection Hrun as <- <-.
  assert ((AccountAggregate.handleCommand amb command
             (state_of (Commands.aggregateId command) (Server.eventStore s))).1
          = Returned newEvents) as Hret by (by rewrite Hhandle).
  destruct (handleCommand_returned amb command _ _ Hret)
    as (event & -> & Hv & Hid & _).
  rewrite state_of_version in Hv by done.
  exists event. cbn [Server.eventStore Server.accountProjection foldl].
  repeat split; try done.
  apply (well_numbered_snoc (Commands.aggregateId command)); [done|].
  split; [done|]. by rewrite Hv.
Qed.

(** X15.  The server's [handleCommand] on a log numbered without gaps.
    What it throws is a domain error of the aggregate, never the
    concurrency error or a validation error of the store, and the log
    and the projection stay as they were.  When it returns, it returns
    one event: of the command's aggregate, numbered one past the number
    of the aggregate's stored events, put at the end of the log and
    handed to [processEvent]; the log is numbered without gaps again. *)
Theorem X15_handleCommand_on_numbered_log amb (command : Command)
    (s : Server.t) :
  well_numbered (Server.eventStore s) →
  let E := Commands.aggregateId command in
  (∀ err s', Server.handleCommand amb command s = (Thrown err, s') →
     isDomainError err = true ∧ s' = s) ∧
  (∀ events s', Server.handleCommand amb command s = (Returned events, s') →
     ∃ event, events = [event] ∧
       Events.aggregateId event = E ∧
       Events.version event =
         Z.of_nat (length (existingEvents E (Server.eventStore s))) + 1 ∧
       Server.eventStore s' = Server.eventStore s ++ [event] ∧
       Server.accountProjection s' =
         (AccountProjection.processEvent event (Server.accountProjection s)).2 ∧
       well_numbered (Server.eventStore s')).
Proof.
  intros Hwn E. split.
  - intros err s' Hrun.
    split; [|by eapply server_handleCommand_thrown].
    pose proof (handleCommand_outcome amb command s Hwn) as Hout. cbn zeta in Hout.
    pose proof (handleCommand_thrown amb command
                  (state_of (Commands.aggregateId command) (Server.eventStore s)))
      as Hdomain.
    destruct (AccountAggregate.handleCommand amb command _) as [[newEvents|e] st'];
      cbn [fst] in Hout, Hdomain; rewrite Hout in Hrun; [done|].
    injection Hrun as <- _. by apply Hdomain.
  - intros events s' Hrun.
    destruct (handleCommand_returned_step amb command s s' events Hwn Hrun)
      as (event & -> & _ & ? & ? & ? & ? & ?).
    exists event. done.
Qed.

Lemma X15_handleCommand_on_numbered_log_witness :
  let s := {| Server.eventStore := Sample.history;
              Server.accountProjection := process_each Sample.history |} in
  isDomainError InsufficientFunds = true ∧ s = s.
Proof.
  intros s.
  assert (well_numbered (Server.eventStore s)) as Hwn.
  { intros other. unfold existingEvents. simpl Server.eventStore.
    unfold Sample.history. rewrite !filter_cons, filter_nil. simpl.
    destruct (decide ("acc-1"%string = other)); reflexivity. }
  destruct (X15_handleCommand_on_numbered_log (Sample.ambient 9)
              (Sample.command "acc-1" (Commands.WITHDRAW_FUNDS 500 "USD")) s Hwn)
    as [Hthrown _].
  apply (Hthrown InsufficientFunds s). vm_compute. reflexivity.
Defined.

Lemma server_inv_init : server_inv Server.init.
Proof. by split. Qed.

Lemma server_inv_step amb (command : Command) (s : Server.t) :
  server_inv s → server_inv (Server.handleCommand amb command s).2.
Proof.
  intros (Hwn & Hsync).
  destruct (Server.handleCommand amb command s) as [[events|err] s'] eqn:Hrun;
    [|by rewrite (server_handleCommand_thrown _ _ _ _ _ Hrun)].
  destruct (handleCommand_returned_step amb command s s' events Hwn Hrun)
    as (event & -> & Hret & Hid & _ & Hstore & Hproj & Hwn').
  cbn [snd]. split; [done|].
  unfold in_sync in *. rewrite Hproj, Hstore, Hsync.
  unfold process_each. by rewrite foldl_snoc.
Qed.

Lemma server_inv_handle_all requests (s : Server.t) :
  server_inv s → server_inv (handle_all requests s).
Proof.
  unfold handle_all. revert s.
  induction requests as [|[amb command] requests IH]; intros s Hinv; [done|].
  cbn [foldl]. apply IH. by apply server_inv_step.
Qed.

(** X16.  Whatever commands the server has handled, one after the
    other, since it started with an empty log: the events of every
    aggregate are numbered 1, 2, 3, ... in the order of the log, and the
    projection holds exactly the views that [processEvent] makes of the
    log, taken event by event from an empty projection.  So the next
    command can throw a domain error only. *)
Theorem X16_server_log_and_projection_in_step
    (requests : list (Ambient * Command)) amb (command : Command) :
  let s := handle_all requests Server.init in
  well_numbered (Server.eventStore s) ∧
  Server.accountProjection s = process_each (Server.eventStore s) ∧
  ∀ err s', Server.handleCommand amb command s = (Thrown err, s') →
            isDomainError err = true ∧ s' = s.
Proof.
  intros s.
  destruct (server_inv_handle_all requests Server.init server_inv_init)
    as (Hwn & Hsync).
  split; [done|]. split; [done|].
  intros err s' Hrun. split; [|by eapply server_handleCommand_thrown].
  pose proof (handleCommand_outcome amb command s Hwn) as Hout. cbn zeta in Hout.
  pose proof (handleCommand_thrown amb command
                (state_of (Commands.aggregateId command) (Server.eventStore s)))
    as Hdomain.
  destruct (AccountAggregate.handleCommand amb command _) as [[newEvents|e] st'];
    cbn [fst] in Hout, Hdomain; rewrite Hout in Hrun; [done|].
  injection Hrun as <- _. by apply Hdomain.
Qed.

End server_invariants.

Section server_edges.
Import InMemoryEventStore.

(** X18.  The rebuild at startup never throws and leaves the log as it
    is.  It replaces the projection, whatever it held, by the views that
    [processEvent] makes of the log sorted by timestamp; when the
    timestamps do not go down along the log, these are the views made
    of the log itself, event by event. *)
Theorem X18_rebuild_on_startup (s : Server.t) :
  ∃ events,
    getAllEvents (Server.eventStore s) = (Returned events, Server.eventStore s) ∧
    rebuild_on_startup s =
      (Returned tt, {| Server.eventStore := Server.eventStore s;
                       Server.accountProjection := process_each events |}) ∧
    ((∀ i x y, Server.eventStore s !! i = Some x →
               Server.eventStore s !! S i = Some y →
               Events.timestamp x ≤ Events.timestamp y) →
     events = Server.eventStore s).
Proof.
  eexists. split; [reflexivity|]. split.
  - unfold rebuild_on_startup, Server.on_eventStore, Server.on_accountProjection,
      getAllEvents, AccountProjection.rebuildFromEvents.
    exec_unfold. cbn [Server.eventStore Server.accountProjection].
    by rewrite for_of_processEvent.
  - intros Hsorted. apply sort_sorted. intros i x y Hx Hy.
    specialize (Hsorted i x y Hx Hy). lia.
Qed.

Lemma X18_rebuild_on_startup_witness :
  let s := {| Server.eventStore := Sample.history;
              Server.accountProjection := ∅ |} in
  ∃ events,
    rebuild_on_startup s =
      (Returned tt, {| Server.eventStore := Sample.history;
                       Server.accountProjection := process_each events |}) ∧
    events = Sample.history.
Proof.
  intros s.
  destruct (X18_rebuild_on_startup s) as (events & _ & Hrun & Hsame).
  exists events. split; [exact Hrun|]. apply Hsame.
  intros i x y.
  do 3 (destruct i as [|i]; [simpl; intros Hx Hy; simplify_eq; simpl; lia|]).
  simpl. intros Hx. discriminate Hx.
Defined.

(** X19.  No user is needed.  For an aggregate that has no stored event
    and no view, the server accepts a deposit of a positive amount: it
    stores and emits an event of version 1 and the projection then holds
    a view of the aggregate without user id, name or email, with the
    amount as balance and the currency of the command. *)
Theorem X19_deposit_without_user amb (command : Command) amount currency
    (s : Server.t) :
  let E := Commands.aggregateId command in
  Commands.data command = Commands.DEPOSIT_FUNDS amount currency →
  (0 <? amount)%float = true →
  existingEvents E (Server.eventStore s) = [] →
  Server.accountProjection s !! E = None →
  let event : Event :=
    {| Events.eventId := uuidv4 amb; Events.aggregateId := E;
       Events.timestamp := now amb; Events.version := 1;
       Events.data := Events.FUNDS_DEPOSITED amount currency |} in
  ∃ s', Server.handleCommand amb command s = (Returned [event], s') ∧
    Server.eventStore s' = Server.eventStore s ++ [event] ∧
    Server.accountProjection s' !! E =
      Some {| AccountProjection.aggregateId := E;
              AccountProjection.userId := None;
              AccountProjection.name := None;
              AccountProjection.email := None;
              AccountProjection.balance := amount;
              AccountProjection.currency := currency;
              AccountProjection.isClosed := false;
              AccountProjection.lastActivity := now amb |}.
Proof.
  intros E Hdata Hpos Hnone Hview event.
  eexists. split.
  - apply (handleCommand_round amb command s (AccountAggregate.new E)).
    + fold E. rewrite Hnone. by intros [|i] x y.
    + unfold currentVersion. fold E. by rewrite Hnone.
    + fold E. by rewrite Hnone.
    + unfold AccountAggregate.handleCommand, AccountAggregate.handleDepositFunds.
      rewrite Hdata. exec_unfold. simpl.
      by rewrite (leb_zero_positive amount Hpos).
    + fold E. rewrite Hnone. by repeat constructor.
  - cbn [Server.eventStore Server.accountProjection foldl]. split; [done|].
    rewrite (processEvent_lookup_at E) by done. rewrite Hview.
    unfold AccountProjection.update. simpl.
    by rewrite (add_zero_positive amount Hpos).
Qed.

Lemma X19_deposit_without_user_witness :
  ∃ s', Server.handleCommand (Sample.ambient 3)
          (Sample.command "nobody" (Commands.DEPOSIT_FUNDS 25 "EUR")) Server.init =
        (Returned [ {| Events.eventId := "uuid"; Events.aggregateId := "nobody";
                       Events.timestamp := 3; Events.version := 1;
                       Events.data := Events.FUNDS_DEPOSITED 25 "EUR" |} ], s') ∧
    Server.accountProjection s' !! "nobody" =
      Some {| AccountProjection.aggregateId := "nobody";
              AccountProjection.userId := None;
              AccountProjection.name := None;
              AccountProjection.email := None;
              AccountProjection.balance := 25;
              AccountProjection.currency := "EUR";
              AccountProjection.isClosed := false;
              AccountProjection.lastActivity := 3 |}.
Proof.
  destruct (X19_deposit_without_user (Sample.ambient 3)
              (Sample.command "nobody" (Commands.DEPOSIT_FUNDS 25 "EUR"))
              25 "EUR" Server.init eq_refl)
    as (s' & Hrun & _ & Hview); [reflexivity|reflexivity|reflexivity|].
  exists s'. split; [exact Hrun|exact Hview].
Defined.

End server_edges.

Section handler_guards.
Import AccountAggregate.

(** X20.  The guards of the deposit and closing handlers, in the order
    the code tests them.  A deposit on a closed account throws "Cannot
    deposit to closed account" whatever the amount; on an open account
    an amount for which [amount <= 0] holds throws "Deposit amount must
    be positive"; otherwise, NaN included, one FUNDS_DEPOSITED event is
    returned.  A closing throws
    "Account already closed" on a closed account and returns one
    ACCOUNT_CLOSED event otherwise; neither handler asks for a user. *)
Theorem X20_deposit_and_close_guards amb (command : Command) (st : AccountState) :
  let result := (handleCommand amb command st).1 in
  let event data : Event :=
    {| Events.eventId := uuidv4 amb;
       Events.aggregateId := Commands.aggregateId command;
       Events.timestamp := now amb; Events.version := version st + 1;
       Events.data := data |} in
  match Commands.data command with
  | Commands.DEPOSIT_FUNDS amount currency =>
      (isClosed st = true → result = Thrown DepositToClosed) ∧
      (isClosed st = false → (amount <=? 0)%float = true →
       result = Thrown DepositNotPositive) ∧
      (isClosed st = false → (amount <=? 0)%float = false →
       result = Returned [event (Events.FUNDS_DEPOSITED amount currency)])
  | Commands.CLOSE_ACCOUNT reason =>
      (isClosed st = true → result = Thrown AlreadyClosed) ∧
      (isClosed st = false →
       result = Returned [event (Events.ACCOUNT_CLOSED reason)])
  | _ => True
  end.
Proof.
  intros result event. subst result event.
  unfold handleCommand, handleDepositFunds, handleCloseAccount.
  destruct (Commands.data command) as [| amount currency | |reason]; [done| |done|];
    exec_unfold.
  - split; [by intros ->|].
    split; by intros -> ->.
  - split; by intros ->.
Qed.

Lemma X20_deposit_and_close_guards_witness :
  (handleCommand (Sample.ambient 7)
     (Sample.command "acc-1" (Commands.DEPOSIT_FUNDS (-5) "USD"))
     Sample.closed_account).1 = Thrown DepositToClosed.
Proof.
  apply (X20_deposit_and_close_guards (Sample.ambient 7)
           (Sample.command "acc-1" (Commands.DEPOSIT_FUNDS (-5) "USD"))
           Sample.closed_account).
  reflexivity.
Defined.

End handler_guards.
